(** * Discretised longitudinal trajectory planning

    A shallow embedding of the notebook [Discretization] (finite-difference
    kinematic model, cost function, physical constraints, bound constraints)
    and the properties of it that the specification states.

    Numbers.  The notebook computes with numpy floats; the specification
    speaks of real-valued samples.  Arrays are modelled as [list Q]: exact
    rational arithmetic, compared with [Qeq].  Division by [0] is outside
    the model (numpy yields inf/nan there), so every statement about a
    computed value assumes a non-zero time step.

    Errors.  Python exceptions are results [Raise e]; a function that
    returns normally yields [Ok a]. *)

From Stdlib Require Import ZArith QArith Qfield Qpower Lqa Lia List Bool.
From Stdlib Require Import Morphisms Setoid.
Import ListNotations.

Local Open Scope Q_scope.

(** ** Python results *)

Module Py.

Inductive exn : Set :=
| ValueError          (* numpy: negative dimensions are not allowed *)
| ZeroDivisionError   (* int / 0 *)
| IndexError.         (* list assignment index out of range *)

Inductive result (A : Type) : Type :=
| Ok (a : A)
| Raise (e : exn).

Arguments Ok {A} a.
Arguments Raise {A} e.

Definition bind {A B : Type} (c : result A) (k : A -> result B) : result B :=
  match c with
  | Ok a => k a
  | Raise e => Raise e
  end.

Definition is_ok {A : Type} (c : result A) : bool :=
  match c with Ok _ => true | Raise _ => false end.

End Py.

Export Py.

Notation "x <- c ;; k" := (bind c (fun x => k))
  (at level 61, c at next level, right associativity).
Notation "c ;;; k" := (bind c (fun _ => k))
  (at level 61, right associativity).

(** ** The numpy operations the notebook uses *)

Module Np.

(** [np.zeros(n)]: an array of [n] zeros; a negative [n] raises. *)
Definition zeros (n : Z) : result (list Q) :=
  if (n <? 0)%Z then Raise ValueError else Ok (repeat 0 (Z.to_nat n)).

(** [x[1:]] and [x[:-1]]. *)
Definition from1 (x : list Q) : list Q := tl x.
Definition butlast (x : list Q) : list Q := removelast x.

(** [a - b] on two arrays.  Every use in the notebook has operands of the
    same shape ([x[1:]] and [x[:-1]]), so no broadcasting arises. *)
Fixpoint sub (a b : list Q) : list Q :=
  match a, b with
  | p :: a', q :: b' => (p - q) :: sub a' b'
  | _, _ => []
  end.

(** Array-with-scalar operations. *)
Definition div_s (a : list Q) (c : Q) : list Q := map (fun e => e / c) a.
Definition sub_s (a : list Q) (c : Q) : list Q := map (fun e => e - c) a.
Definition add_s (a : list Q) (c : Q) : list Q := map (fun e => e + c) a.
Definition s_sub (c : Q) (a : list Q) : list Q := map (fun e => c - e) a.
Definition sq (a : list Q) : list Q := map (fun e => e ^ 2) a.

(** Python's builtin [sum]: starts from [0] and adds from the left. *)
Definition sum (a : list Q) : Q := fold_left Qplus a 0.

End Np.

(** ** The notebook [Discretization] *)

(** [del_t = T/(N-1)], true division of Python 3. *)
Definition del_t (T : Q) (N : Z) : result Q :=
  if (N - 1 =? 0)%Z then Raise ZeroDivisionError
  else Ok (T / inject_Z (N - 1)).

(** The globals [N], [del_t], [v_des], [v_max], [a_max] are explicit
    arguments.  The function arguments keep the order: globals first,
    then [x]. *)

(** Velocity. *)
Definition v (N : Z) (dt : Q) (x : list Q) : result (list Q) :=
  Np.zeros (N - 1) ;;;
  Ok (Np.div_s (Np.sub (Np.from1 x) (Np.butlast x)) dt).

(** Acceleration. *)
Definition a (N : Z) (dt : Q) (x : list Q) : result (list Q) :=
  v1 <- v N dt x ;;
  Np.zeros (N - 2) ;;;
  Ok (Np.div_s (Np.sub (Np.from1 v1) (Np.butlast v1)) dt).

(** Jerk. *)
Definition j (N : Z) (dt : Q) (x : list Q) : result (list Q) :=
  a1 <- a N dt x ;;
  Np.zeros (N - 3) ;;;
  Ok (Np.div_s (Np.sub (Np.from1 a1) (Np.butlast a1)) dt).

(** Cost function. *)
Definition J (N : Z) (dt v_des : Q) (x : list Q) : result Q :=
  vx <- v N dt x ;;
  ax <- a N dt x ;;
  jx <- j N dt x ;;
  Ok ((1 # 2) * (Np.sum (Np.sq (Np.sub_s vx v_des))
                 + Np.sum (Np.sq ax) + Np.sum (Np.sq jx)) * dt).

(** Physical constraints. *)
Definition cons_vel (N : Z) (dt v_max : Q) (x : list Q) : result (list Q) :=
  vx <- v N dt x ;; Ok (Np.s_sub v_max vx).

Definition cons_acc (N : Z) (dt a_max : Q) (x : list Q) : result (list Q) :=
  ax <- a N dt x ;; Ok (Np.s_sub a_max ax).


(** Bound constraints.  A bound is a pair of extended numbers; the only
    infinite one the notebook writes is [np.inf]. *)
Inductive ext : Set :=
| Fin (q : Q)
| PInf.

Definition bound : Set := (ext * ext)%type.

(** [l[i] = b] on a Python list, for a non-negative literal index. *)
Definition list_assign {A : Type} (l : list A) (i : nat) (b : A)
  : result (list A) :=
  if (i <? length l)%nat
  then Ok (firstn i l ++ b :: skipn (S i) l)
  else Raise IndexError.

Definition bounds (N : Z) (dt vel_init acc_init : Q) : result (list bound) :=
  let b := repeat (Fin 0, PInf) (Z.to_nat N) in
  b <- list_assign b 0 (Fin 0, Fin 0) ;;
  b <- list_assign b 1 (Fin (vel_init * dt), Fin (vel_init * dt)) ;;
  list_assign b 2
    (Fin (acc_init * dt ^ 2 + 2 * vel_init * dt),
     Fin (acc_init * dt ^ 2 + 2 * vel_init * dt)).

(** The kinematic model as a whole: the notebook has no function of this
    name; this is its cell run for a horizon [T] and a sample count [N],
    [del_t] first, then [v], [a] and [j] on the trajectory [x]. *)
Definition kinematics (T : Q) (N : Z) (x : list Q)
  : result (list Q * list Q * list Q) :=
  dt <- del_t T N ;;
  vx <- v N dt x ;;
  ax <- a N dt x ;;
  jx <- j N dt x ;;
  Ok (vx, ax, jx).

(** The notebook's own numbers: [T = 10], [N = 30], [v_des = 20],
    [x_0 = np.arange(30)]. *)
Definition x_0 : list Q := map (fun i => inject_Z (Z.of_nat i)) (seq 0 30).

(** ** Vocabulary of the statements *)

(** Arrays are compared entry by entry, up to [Qeq]. *)
Definition eqlist : list Q -> list Q -> Prop := Forall2 Qeq.

Infix "=l=" := eqlist (at level 70, no associativity).

(** Two results agree: the same exception, or values that agree. *)
Definition eqres (r1 r2 : result (list Q)) : Prop :=
  match r1, r2 with
  | Ok l1, Ok l2 => l1 =l= l2
  | Raise e1, Raise e2 => e1 = e2
  | _, _ => False
  end.

Definition eqresQ (r1 r2 : result Q) : Prop :=
  match r1, r2 with
  | Ok q1, Ok q2 => q1 == q2
  | Raise e1, Raise e2 => e1 = e2
  | _, _ => False
  end.

(** One finite-difference level, the expression the three kinematic
    functions share: [(l[1:] - l[:-1])/del_t]. *)
Definition fdiff (dt : Q) (l : list Q) : list Q :=
  Np.div_s (Np.sub (Np.from1 l) (Np.butlast l)) dt.

(** The sum of [f i] over the index range [0 .. n-1]. *)
Fixpoint big_sum (f : nat -> Q) (n : nat) : Q :=
  match n with
  | O => 0
  | S m => big_sum f m + f m
  end.

(** The cost formula in the specification's words, with its three weights;
    each sum runs over the whole index range of its sequence. *)
Definition J_spec (v_des w_v w_a w_j dt : Q) (vel acc jerk : list Q) : Q :=
  (1 # 2) * dt *
  ( w_v * big_sum (fun i => (nth i vel 0 - v_des) ^ 2) (length vel)
  + w_a * big_sum (fun i => (nth i acc 0) ^ 2) (length acc)
  + w_j * big_sum (fun i => (nth i jerk 0) ^ 2) (length jerk)).

(** An inequality constraint function is satisfied where every component
    of its value is non-negative. *)
Definition nonneg (c : list Q) : Prop := Forall (fun e => 0 <= e) c.


(** A value within a bound, and a trajectory within a list of bounds. *)
Definition within (b : bound) (q : Q) : Prop :=
  match fst b with Fin lo => lo <= q | PInf => False end /\
  match snd b with Fin hi => q <= hi | PInf => True end.

Definition satisfies_bounds (bs : list bound) (x : list Q) : Prop :=
  Forall2 within bs x.

(** Modelled from the spec: obstacles, which the notebooks describe only in
    prose; a window [t_a .. t_b] of sample indices and a position band
    [s_a .. s_b]. *)
Record Obstacle : Set := mkObstacle
  { t_a : nat; t_b : nat; s_a : Q; s_b : Q }.



(** The constant-velocity trajectory [s[i] = v*i*del_t], [i < n]. *)
Definition ramp (vel dt : Q) (n : nat) : list Q :=
  map (fun i => vel * inject_Z (Z.of_nat i) * dt) (seq 0 n).

(** ** The time axis of the plot *)

(** [np.linspace(start, stop, num)]: [num] evenly spaced samples from
    [start] to [stop], both included; the step is [(stop - start)/(num - 1)]
    and the last sample is [stop] itself.  A negative [num] raises. *)
Definition linspace (start stop : Q) (num : Z) : result (list Q) :=
  if (num <? 0)%Z then Raise ValueError
  else
    let step := (stop - start) / inject_Z (num - 1) in
    let y := map (fun i => start + inject_Z (Z.of_nat i) * step)
                 (seq 0 (Z.to_nat num)) in
    Ok (if (1 <? num)%Z then removelast y ++ [stop] else y).

(** [t_axis = np.linspace(0, 10, N)]. *)
Definition t_axis (N : Z) : result (list Q) := linspace 0 10 N.

(** ** Vocabulary of the further statements *)

(** The convex combination [lam * x + (1 - lam) * y] of two arrays of the
    same shape, entry by entry. *)
Fixpoint mix (lam : Q) (x y : list Q) : list Q :=
  match x, y with
  | p :: x', q :: y' => (lam * p + (1 - lam) * q) :: mix lam x' y'
  | _, _ => []
  end.

(** The index [i] as a number. *)
Definition idx (i : nat) : Q := inject_Z (Z.of_nat i).

(** ** Mode enumeration *)

Module ModeEnumerator.

(** Modelled from the spec: the failures of a planning call; the notebooks
    define no error of their own. *)
Inductive planning_error : Set :=
| InsufficientSamples
| InvalidObstacleWindow
| TooManyObstacles
| NoFeasibleMode.

(** Modelled from the spec: an obstacle mode, absent from the notebooks;
    one boolean per obstacle, [true] is above, [false] is below. *)
Definition ObstacleMode : Set := list bool.

(** Modelled from the spec: the mode enumerator, which the notebooks only
    announce in prose.  The [k]-th mode in binary counting order: obstacle
    [i] takes bit [i] of [k]. *)
Definition mode_of (M k : nat) : ObstacleMode :=
  map (Nat.testbit k) (seq 0 M).

(** Modelled from the spec: one step of the lazy sequence.  The state is
    the number of modes yielded so far; [None] is the end. *)
Definition next (M k : nat) : option (ObstacleMode * nat) :=
  if (k <? 2 ^ M)%nat then Some (mode_of M k, S k) else None.

(** Modelled from the spec: the modes yielded from state [k] on, at most
    [fuel] of them. *)
Fixpoint drain (M fuel k : nat) : list ObstacleMode :=
  match fuel with
  | O => []
  | S f =>
      match next M k with
      | Some (m, k') => m :: drain M f k'
      | None => []
      end
  end.

(** Modelled from the spec: the enumerator with its cap on the number of
    obstacles; a fresh run starts from state [0]. *)
Definition enumerate (cap : nat) (obstacles : list Obstacle)
  : planning_error + list ObstacleMode :=
  let M := length obstacles in
  if (cap <? M)%nat then inl TooManyObstacles
  else inr (drain M (2 ^ M) 0).

(** The number a boolean vector spells, least significant bit first. *)
Fixpoint of_bits (bs : list bool) : nat :=
  match bs with
  | [] => 0
  | b :: bs' => Nat.b2n b + 2 * of_bits bs'
  end.

End ModeEnumerator.

(** * Properties *)

(** ** Concrete runs *)

Example del_t_notebook : del_t 10 30 = Ok (10 / 29).
Proof. reflexivity. Qed.

Example v_ramp : v 4 1 [0; 1; 2; 3] = Ok [1 / 1; 1 / 1; 1 / 1].
Proof. reflexivity. Qed.

(** ** One level of finite differences *)

Lemma fdiff_nil (dt : Q) : fdiff dt [] = [].
Proof. reflexivity. Qed.

Lemma fdiff_single (dt p : Q) : fdiff dt [p] = [].
Proof. reflexivity. Qed.

Lemma fdiff_cons (dt p q : Q) (r : list Q) :
  fdiff dt (p :: q :: r) = ((q - p) / dt) :: fdiff dt (q :: r).
Proof. reflexivity. Qed.

Lemma fdiff_length (dt : Q) (l : list Q) :
  length (fdiff dt l) = (length l - 1)%nat.
Proof.
  induction l as [|p l IH]; [reflexivity|].
  destruct l as [|q r]; [reflexivity|].
  rewrite fdiff_cons. cbn [length] in *. rewrite IH. lia.
Qed.

Lemma fdiff_nth (dt : Q) (l : list Q) (i : nat) :
  (S i < length l)%nat ->
  nth i (fdiff dt l) 0 = (nth (S i) l 0 - nth i l 0) / dt.
Proof.
  revert i. induction l as [|p l IH]; intros i Hi; [cbn in Hi; lia|].
  destruct l as [|q r]; [cbn in Hi; lia|].
  rewrite fdiff_cons. destruct i as [|i]; [reflexivity|].
  cbn [nth]. rewrite IH by (cbn [length] in *; lia). reflexivity.
Qed.

(** ** When the kinematic functions return, and what *)

Lemma zeros_ok (n : Z) :
  (0 <= n)%Z -> Np.zeros n = Ok (repeat 0 (Z.to_nat n)).
Proof.
  intros Hn. unfold Np.zeros.
  destruct (Z.ltb_spec n 0); [lia | reflexivity].
Qed.

Lemma zeros_raise (n : Z) : (n < 0)%Z -> Np.zeros n = Raise ValueError.
Proof.
  intros Hn. unfold Np.zeros.
  destruct (Z.ltb_spec n 0); [reflexivity | lia].
Qed.

Lemma v_ok (N : Z) (dt : Q) (x : list Q) :
  (1 <= N)%Z -> v N dt x = Ok (fdiff dt x).
Proof.
  intros HN. unfold v. rewrite zeros_ok by lia. reflexivity.
Qed.

Lemma a_ok (N : Z) (dt : Q) (x : list Q) :
  (2 <= N)%Z -> a N dt x = Ok (fdiff dt (fdiff dt x)).
Proof.
  intros HN. unfold a. rewrite v_ok by lia. cbn [bind].
  rewrite zeros_ok by lia. reflexivity.
Qed.

Lemma j_ok (N : Z) (dt : Q) (x : list Q) :
  (3 <= N)%Z -> j N dt x = Ok (fdiff dt (fdiff dt (fdiff dt x))).
Proof.
  intros HN. unfold j. rewrite a_ok by lia. cbn [bind].
  rewrite zeros_ok by lia. reflexivity.
Qed.

Lemma v_raise (N : Z) (dt : Q) (x : list Q) :
  (N < 1)%Z -> v N dt x = Raise ValueError.
Proof.
  intros HN. unfold v. rewrite zeros_raise by lia. reflexivity.
Qed.

Lemma a_raise (N : Z) (dt : Q) (x : list Q) :
  (N < 2)%Z -> a N dt x = Raise ValueError.
Proof.
  intros HN. unfold a.
  destruct (Z.lt_ge_cases N 1) as [H1|H1].
  - rewrite v_raise by lia. reflexivity.
  - rewrite v_ok by lia. cbn [bind]. rewrite zeros_raise by lia. reflexivity.
Qed.

Lemma j_raise (N : Z) (dt : Q) (x : list Q) :
  (N < 3)%Z -> j N dt x = Raise ValueError.
Proof.
  intros HN. unfold j.
  destruct (Z.lt_ge_cases N 2) as [H2|H2].
  - rewrite a_raise by lia. reflexivity.
  - rewrite a_ok by lia. cbn [bind]. rewrite zeros_raise by lia. reflexivity.
Qed.

Lemma del_t_ok (T : Q) (N : Z) :
  (N <> 1)%Z -> del_t T N = Ok (T / inject_Z (N - 1)).
Proof.
  intros HN. unfold del_t.
  destruct (Z.eqb_spec (N - 1) 0); [lia | reflexivity].
Qed.

Lemma del_t_pos (T : Q) (N : Z) :
  0 < T -> (2 <= N)%Z -> 0 < T / inject_Z (N - 1).
Proof.
  intros HT HN. apply Qlt_shift_div_l.
  - change 0 with (inject_Z 0). rewrite <- Zlt_Qlt. lia.
  - lra.
Qed.

(** ** Arrays up to [Qeq] *)

Lemma eqlist_refl (l : list Q) : l =l= l.
Proof. induction l; constructor; [reflexivity | assumption]. Qed.

Lemma eqlist_tl (l1 l2 : list Q) : l1 =l= l2 -> tl l1 =l= tl l2.
Proof. intros H. destruct H; [constructor | assumption]. Qed.

Lemma eqlist_removelast (l1 l2 : list Q) :
  l1 =l= l2 -> removelast l1 =l= removelast l2.
Proof.
  induction 1 as [|p q l1 l2 Hpq Hl IH]; [constructor|].
  destruct Hl as [|p' q' l1 l2 Hpq' Hl]; [constructor|].
  cbn [removelast] in *. constructor; assumption.
Qed.

Lemma eqlist_sub (a1 a2 b1 b2 : list Q) :
  a1 =l= a2 -> b1 =l= b2 -> Np.sub a1 b1 =l= Np.sub a2 b2.
Proof.
  intros Ha. revert b1 b2.
  induction Ha as [|p q a1 a2 Hpq Ha IH]; intros b1 b2 Hb.
  - constructor.
  - destruct Hb as [|p' q' b1 b2 Hpq' Hb]; [constructor|].
    cbn [Np.sub]. constructor; [rewrite Hpq, Hpq'; reflexivity|].
    apply IH. exact Hb.
Qed.

Lemma eqlist_map (f g : Q -> Q) (l1 l2 : list Q) :
  (forall p q, p == q -> f p == g q) ->
  l1 =l= l2 -> map f l1 =l= map g l2.
Proof.
  intros Hfg. induction 1; cbn [map]; constructor; auto.
Qed.

Lemma fdiff_eqlist (dt : Q) (l1 l2 : list Q) :
  l1 =l= l2 -> fdiff dt l1 =l= fdiff dt l2.
Proof.
  intros H. unfold fdiff, Np.div_s, Np.from1, Np.butlast.
  apply eqlist_map.
  - intros p q Hpq. rewrite Hpq. reflexivity.
  - apply eqlist_sub; [apply eqlist_tl | apply eqlist_removelast]; assumption.
Qed.

(** Adding a constant to every sample cancels in the differences. *)
Lemma fdiff_add_s (dt c : Q) (l : list Q) :
  fdiff dt (Np.add_s l c) =l= fdiff dt l.
Proof.
  induction l as [|p l IH]; [constructor|].
  destruct l as [|q r]; [constructor|].
  unfold Np.add_s in *. cbn [map] in *. rewrite !fdiff_cons.
  constructor; [|exact IH].
  unfold Qdiv. ring.
Qed.

(** ** Sums *)

Lemma fold_plus_acc (l : list Q) (acc : Q) :
  fold_left Qplus l acc == acc + fold_left Qplus l 0.
Proof.
  revert acc. induction l as [|p l IH]; intros acc; cbn [fold_left].
  - ring.
  - rewrite (IH (acc + p)), (IH (0 + p)). ring.
Qed.

Lemma sum_cons (p : Q) (l : list Q) : Np.sum (p :: l) == p + Np.sum l.
Proof.
  unfold Np.sum. cbn [fold_left]. rewrite fold_plus_acc. ring.
Qed.

Lemma sum_eqlist (l1 l2 : list Q) : l1 =l= l2 -> Np.sum l1 == Np.sum l2.
Proof.
  induction 1 as [|p q l1 l2 Hpq Hl IH]; [reflexivity|].
  rewrite !sum_cons, Hpq, IH. reflexivity.
Qed.

(** The array operations respect [=l=], so equal arrays can be rewritten
    inside the cost. *)
#[global] Instance eqlist_Equivalence : Equivalence eqlist.
Proof.
  split.
  - intros l. apply eqlist_refl.
  - intros l1 l2 H. induction H; constructor; [symmetry|]; assumption.
  - intros l1 l2 l3 H12. revert l3.
    induction H12 as [|p q l1 l2 Hpq H12 IH]; intros l3 H23;
      inversion H23; subst; constructor.
    + etransitivity; eassumption.
    + apply IH. assumption.
Qed.

#[global] Instance fdiff_Proper (dt : Q) : Proper (eqlist ==> eqlist) (fdiff dt).
Proof. intros l1 l2 H. apply fdiff_eqlist. exact H. Qed.

#[global] Instance sum_Proper : Proper (eqlist ==> Qeq) Np.sum.
Proof. intros l1 l2 H. apply sum_eqlist. exact H. Qed.

#[global] Instance sq_Proper : Proper (eqlist ==> eqlist) Np.sq.
Proof.
  intros l1 l2 H. unfold Np.sq.
  apply eqlist_map; [intros p q E; rewrite E; reflexivity | exact H].
Qed.

#[global] Instance sub_s_Proper : Proper (eqlist ==> Qeq ==> eqlist) Np.sub_s.
Proof.
  intros l1 l2 H c1 c2 Hc. unfold Np.sub_s.
  apply eqlist_map; [intros p q E; rewrite E, Hc; reflexivity | exact H].
Qed.

Lemma big_sum_shift (f : nat -> Q) (n : nat) :
  big_sum f (S n) == f O + big_sum (fun i => f (S i)) n.
Proof.
  induction n as [|n IH].
  - cbn. ring.
  - change (big_sum f (S (S n))) with (big_sum f (S n) + f (S n)).
    rewrite IH. cbn [big_sum]. ring.
Qed.

(** Python's [sum] over an array is the sum over its whole index range. *)
Lemma sum_map_big_sum (g : Q -> Q) (l : list Q) :
  Np.sum (map g l) == big_sum (fun i => g (nth i l 0)) (length l).
Proof.
  induction l as [|p l IH]; [reflexivity|].
  cbn [map length]. rewrite sum_cons, IH.
  rewrite (big_sum_shift (fun i => g (nth i (p :: l) 0))).
  reflexivity.
Qed.

Lemma sum_sq_nonneg (l : list Q) : 0 <= Np.sum (Np.sq l).
Proof.
  induction l as [|p l IH]; [apply Qle_refl|].
  unfold Np.sq in *. cbn [map]. rewrite sum_cons.
  pose proof (Qsqr_nonneg p). lra.
Qed.

(** ** The cost function, when it returns *)

Lemma J_ok (N : Z) (dt v_des : Q) (x : list Q) :
  (3 <= N)%Z ->
  J N dt v_des x =
  Ok ((1 # 2) * (Np.sum (Np.sq (Np.sub_s (fdiff dt x) v_des))
                 + Np.sum (Np.sq (fdiff dt (fdiff dt x)))
                 + Np.sum (Np.sq (fdiff dt (fdiff dt (fdiff dt x))))) * dt).
Proof.
  intros HN. unfold J.
  rewrite v_ok, a_ok, j_ok by lia. reflexivity.
Qed.

Lemma J_raise (N : Z) (dt v_des : Q) (x : list Q) :
  (N < 3)%Z -> J N dt v_des x = Raise ValueError.
Proof.
  intros HN. unfold J.
  destruct (Z.lt_ge_cases N 1) as [H1|H1];
    [rewrite v_raise by lia; reflexivity | rewrite v_ok by lia; cbn [bind]].
  destruct (Z.lt_ge_cases N 2) as [H2|H2];
    [rewrite a_raise by lia; reflexivity | rewrite a_ok by lia; cbn [bind]].
  rewrite j_raise by lia. reflexivity.
Qed.

(** ** The kinematic model (C2) *)

(** C2.  For a trajectory [s] of length [N >= 4] over a horizon [T > 0],
    with [del_t = T/(N-1)], the kinematic model returns a velocity of
    length [N-1] with [velocity[i] = (s[i+1] - s[i])/del_t], an acceleration
    of length [N-2] with [acceleration[i] = (velocity[i+1] -
    velocity[i])/del_t] and a jerk of length [N-3] with
    [jerk[i] = (acceleration[i+1] - acceleration[i])/del_t]. *)
Theorem kinematics_finite_differences (T : Q) (N : Z) (s : list Q) :
  (4 <= N)%Z -> 0 < T -> length s = Z.to_nat N ->
  exists dt vel acc jerk,
    del_t T N = Ok dt /\ dt = T / inject_Z (N - 1) /\ 0 < dt /\
    v N dt s = Ok vel /\ a N dt s = Ok acc /\ j N dt s = Ok jerk /\
    kinematics T N s = Ok (vel, acc, jerk) /\
    length vel = Z.to_nat (N - 1) /\
    length acc = Z.to_nat (N - 2) /\
    length jerk = Z.to_nat (N - 3) /\
    (forall i, (i < length vel)%nat ->
       nth i vel 0 = (nth (S i) s 0 - nth i s 0) / dt) /\
    (forall i, (i < length acc)%nat ->
       nth i acc 0 = (nth (S i) vel 0 - nth i vel 0) / dt) /\
    (forall i, (i < length jerk)%nat ->
       nth i jerk 0 = (nth (S i) acc 0 - nth i acc 0) / dt).
Proof.
  intros HN HT Hlen.
  set (dt := T / inject_Z (N - 1)).
  exists dt, (fdiff dt s), (fdiff dt (fdiff dt s)),
    (fdiff dt (fdiff dt (fdiff dt s))).
  assert (Hdt : del_t T N = Ok dt) by (apply del_t_ok; lia).
  assert (Hv := v_ok N dt s ltac:(lia)).
  assert (Ha := a_ok N dt s ltac:(lia)).
  assert (Hj := j_ok N dt s ltac:(lia)).
  repeat match goal with |- _ /\ _ => split end;
    try assumption; try reflexivity.
  - apply del_t_pos; [assumption | lia].
  - unfold kinematics. rewrite Hdt. cbn [bind].
    rewrite Hv, Ha, Hj. reflexivity.
  - rewrite fdiff_length. lia.
  - rewrite !fdiff_length. lia.
  - rewrite !fdiff_length. lia.
  - intros i Hi. apply fdiff_nth. rewrite fdiff_length in Hi. lia.
  - intros i Hi. apply fdiff_nth. rewrite !fdiff_length in *. lia.
  - intros i Hi. apply fdiff_nth. rewrite !fdiff_length in *. lia.
Qed.

Lemma kinematics_finite_differences_witness :
  (4 <= 30)%Z /\ 0 < 10 /\ length x_0 = Z.to_nat 30 /\
  exists vel acc jerk,
    kinematics 10 30 x_0 = Ok (vel, acc, jerk) /\
    length vel = 29%nat /\ length acc = 28%nat /\ length jerk = 27%nat.
Proof.
  assert (H1 : (4 <= 30)%Z) by lia.
  assert (H2 : 0 < 10) by reflexivity.
  assert (H3 : length x_0 = Z.to_nat 30) by reflexivity.
  repeat split; try assumption.
  destruct (kinematics_finite_differences 10 30 x_0 H1 H2 H3)
    as (dt & vel & acc & jerk & _ & _ & _ & _ & _ & _ & Hk & Lv & La & Lj & _).
  exists vel, acc, jerk. repeat split; assumption.
Defined.

(** ** The cost function (C1, C9) *)

(** C1, as stated, fails: the cost function has no weights.  On the ramp
    [0, 1, 2, 3] with [del_t = 1] and [v_des = 0] it returns [3/2], while
    the weighted formula with [w_v = 2], [w_a = w_j = 1] gives [3]. *)
Lemma J_ignores_weights :
  exists vel acc jerk r,
    v 4 1 [0; 1; 2; 3] = Ok vel /\
    a 4 1 [0; 1; 2; 3] = Ok acc /\
    j 4 1 [0; 1; 2; 3] = Ok jerk /\
    J 4 1 0 [0; 1; 2; 3] = Ok r /\
    ~ r == J_spec 0 2 1 1 1 vel acc jerk.
Proof.
  do 4 eexists. repeat split; try reflexivity.
  vm_compute. discriminate.
Qed.

(** C1, amended.  For a candidate trajectory [x] and the parameters
    [v_des], [del_t] the cost function returns
    [0.5 * del_t * (sum (velocity[i] - v_des)^2 + sum acceleration[i]^2 +
    sum jerk[i]^2)], the weighted formula at unit weights; each sum runs
    over the whole index range of the sequence the kinematic model
    returns. *)
Theorem J_unit_weights (N : Z) (dt v_des : Q) (x : list Q) :
  (3 <= N)%Z -> ~ dt == 0 ->
  exists vel acc jerk r,
    v N dt x = Ok vel /\ a N dt x = Ok acc /\ j N dt x = Ok jerk /\
    J N dt v_des x = Ok r /\
    r == J_spec v_des 1 1 1 dt vel acc jerk.
Proof.
  intros HN _.
  exists (fdiff dt x), (fdiff dt (fdiff dt x)),
    (fdiff dt (fdiff dt (fdiff dt x))).
  eexists. rewrite v_ok, a_ok, j_ok, J_ok by lia.
  repeat split.
  unfold J_spec, Np.sq, Np.sub_s. rewrite map_map.
  rewrite (sum_map_big_sum (fun e => (e - v_des) ^ 2)).
  rewrite !(sum_map_big_sum (fun e => e ^ 2)).
  ring.
Qed.

Lemma J_unit_weights_witness :
  (3 <= 30)%Z /\ ~ 10 / 29 == 0 /\
  exists r, J 30 (10 / 29) 20 x_0 = Ok r.
Proof.
  assert (H1 : (3 <= 30)%Z) by lia.
  assert (H2 : ~ 10 / 29 == 0) by (vm_compute; discriminate).
  repeat split; try assumption.
  destruct (J_unit_weights 30 (10 / 29) 20 x_0 H1 H2)
    as (vel & acc & jerk & r & _ & _ & _ & HJ & _).
  exists r. exact HJ.
Defined.

(** C9.  With a positive time step the value the cost function returns is
    non-negative, whatever the trajectory and the desired velocity. *)
Theorem J_nonneg (N : Z) (dt v_des : Q) (x : list Q) :
  (3 <= N)%Z -> 0 < dt ->
  exists r, J N dt v_des x = Ok r /\ 0 <= r.
Proof.
  intros HN Hdt. eexists. split; [apply J_ok; assumption|].
  pose proof (sum_sq_nonneg (Np.sub_s (fdiff dt x) v_des)) as H1.
  pose proof (sum_sq_nonneg (fdiff dt (fdiff dt x))) as H2.
  pose proof (sum_sq_nonneg (fdiff dt (fdiff dt (fdiff dt x)))) as H3.
  apply Qmult_le_0_compat.
  - apply Qmult_le_0_compat; lra.
  - lra.
Qed.

Lemma J_nonneg_witness :
  (3 <= 30)%Z /\ 0 < 10 / 29 /\
  exists r, J 30 (10 / 29) 20 x_0 = Ok r /\ 0 <= r.
Proof.
  assert (H1 : (3 <= 30)%Z) by lia.
  assert (H2 : 0 < 10 / 29) by reflexivity.
  repeat split; try assumption.
  apply (J_nonneg 30 (10 / 29) 20 x_0 H1 H2).
Defined.

(** ** Translation invariance (C10) *)

(** C10.  Adding a constant [c] to every entry of a trajectory leaves the
    velocity, the acceleration and the jerk unchanged, and so the cost:
    [J(x + c) = J(x)]. *)
Theorem translation_invariance (N : Z) (dt v_des c : Q) (x : list Q) :
  ~ dt == 0 ->
  eqres (v N dt (Np.add_s x c)) (v N dt x) /\
  eqres (a N dt (Np.add_s x c)) (a N dt x) /\
  eqres (j N dt (Np.add_s x c)) (j N dt x) /\
  eqresQ (J N dt v_des (Np.add_s x c)) (J N dt v_des x).
Proof.
  intros _.
  pose proof (fdiff_add_s dt c x) as Hv.
  repeat split.
  - destruct (Z.lt_ge_cases N 1).
    + rewrite !v_raise by lia. reflexivity.
    + rewrite !v_ok by lia. exact Hv.
  - destruct (Z.lt_ge_cases N 2).
    + rewrite !a_raise by lia. reflexivity.
    + rewrite !a_ok by lia. cbn [eqres]. rewrite Hv. reflexivity.
  - destruct (Z.lt_ge_cases N 3).
    + rewrite !j_raise by lia. reflexivity.
    + rewrite !j_ok by lia. cbn [eqres]. rewrite Hv. reflexivity.
  - destruct (Z.lt_ge_cases N 3).
    + rewrite !J_raise by lia. reflexivity.
    + rewrite !J_ok by lia. cbn [eqresQ].
      rewrite Hv. reflexivity.
Qed.

Lemma translation_invariance_witness :
  ~ 10 / 29 == 0 /\
  eqresQ (J 30 (10 / 29) 20 (Np.add_s x_0 100)) (J 30 (10 / 29) 20 x_0).
Proof.
  assert (H : ~ 10 / 29 == 0) by (vm_compute; discriminate).
  split; [exact H|].
  exact (proj2 (proj2 (proj2
           (translation_invariance 30 (10 / 29) 20 100 x_0 H)))).
Defined.

(** ** Accepted sample counts (C7) *)

(** C7, as stated, fails: with sample count [N = 3] the kinematic model
    raises nothing; it returns two velocities, one acceleration and an
    empty jerk. *)
Lemma three_samples_accepted :
  exists vel acc,
    kinematics 10 3 [0; 1; 4] = Ok (vel, acc, []) /\
    length vel = 2%nat /\ length acc = 1%nat.
Proof.
  do 2 eexists. repeat split; reflexivity.
Qed.

(** C7, amended.  The kinematic model has no error of its own for too few
    samples: it returns exactly when [N >= 3] ([N = 3] is the least
    accepted sample count), and then the velocity, the acceleration and
    the jerk have one, two and three entries fewer than the trajectory;
    for [N < 3] the only failures are numpy's [ValueError] for a negative
    array dimension and the division by zero in [del_t] at [N = 1]. *)
Theorem kinematics_accepts_from_three (T : Q) (N : Z) (x : list Q) :
  is_ok (kinematics T N x) = (3 <=? N)%Z /\
  match kinematics T N x with
  | Ok (vel, acc, jerk) =>
      length vel = (length x - 1)%nat /\
      length acc = (length x - 2)%nat /\
      length jerk = (length x - 3)%nat
  | Raise e =>
      e = (if (N =? 1)%Z then ZeroDivisionError else ValueError)
  end.
Proof.
  unfold kinematics, del_t.
  destruct (Z.eqb_spec (N - 1) 0) as [E|E].
  - replace N with 1%Z by lia. split; reflexivity.
  - cbn [bind]. destruct (Z.leb_spec 3 N) as [H3|H3].
    + rewrite v_ok, a_ok, j_ok by lia. cbn [bind is_ok].
      rewrite !fdiff_length. repeat split; lia.
    + destruct (Z.eqb_spec N 1); [lia|].
      destruct (Z.lt_ge_cases N 1);
        [rewrite v_raise by lia; split; reflexivity
        | rewrite v_ok by lia; cbn [bind]].
      destruct (Z.lt_ge_cases N 2);
        [rewrite a_raise by lia; split; reflexivity
        | rewrite a_ok by lia; cbn [bind]].
      rewrite j_raise by lia. split; reflexivity.
Qed.

(** ** Velocity and acceleration limits (C5) *)

Lemma nonneg_s_sub (c : Q) (l : list Q) :
  nonneg (Np.s_sub c l) <->
  (forall i, (i < length l)%nat -> nth i l 0 <= c).
Proof.
  unfold nonneg, Np.s_sub. rewrite Forall_map, Forall_nth. split.
  - intros H i Hi. specialize (H i 0 Hi). lra.
  - intros H i d Hi. rewrite (nth_indep l d 0 Hi).
    specialize (H i Hi). lra.
Qed.

(** C5.  The velocity-limit constraint function is non-negative in every
    component iff [velocity[i] <= v_max] at every index of the velocity;
    the acceleration-limit constraint function is non-negative in every
    component iff [acceleration[i] <= a_max] at every index of the
    acceleration. *)
Theorem limit_constraints (N : Z) (dt v_max a_max : Q) (x : list Q) :
  (2 <= N)%Z -> ~ dt == 0 ->
  exists vel acc cv ca,
    v N dt x = Ok vel /\ a N dt x = Ok acc /\
    cons_vel N dt v_max x = Ok cv /\ cons_acc N dt a_max x = Ok ca /\
    length cv = length vel /\ length ca = length acc /\
    (nonneg cv <->
     forall i, (i < length vel)%nat -> nth i vel 0 <= v_max) /\
    (nonneg ca <->
     forall i, (i < length acc)%nat -> nth i acc 0 <= a_max).
Proof.
  intros HN _.
  exists (fdiff dt x), (fdiff dt (fdiff dt x)),
    (Np.s_sub v_max (fdiff dt x)), (Np.s_sub a_max (fdiff dt (fdiff dt x))).
  unfold cons_vel, cons_acc. rewrite v_ok, a_ok by lia. cbn [bind].
  repeat match goal with |- _ /\ _ => split end; try reflexivity.
  - unfold Np.s_sub. apply length_map.
  - unfold Np.s_sub. apply length_map.
  - apply nonneg_s_sub.
  - apply nonneg_s_sub.
Qed.

Lemma limit_constraints_witness :
  (2 <= 30)%Z /\ ~ 10 / 29 == 0 /\
  exists cv ca,
    cons_vel 30 (10 / 29) 30 x_0 = Ok cv /\
    cons_acc 30 (10 / 29) 15 x_0 = Ok ca /\
    length cv = 29%nat /\ length ca = 28%nat.
Proof.
  assert (H1 : (2 <= 30)%Z) by lia.
  assert (H2 : ~ 10 / 29 == 0) by (vm_compute; discriminate).
  split; [exact H1|]. split; [exact H2|].
  destruct (limit_constraints 30 (10 / 29) 30 15 x_0 H1 H2)
    as (vel & acc & cv & ca & Hv & Ha & Hcv & Hca & Lv & La & _).
  exists cv, ca.
  rewrite v_ok in Hv by lia. rewrite a_ok in Ha by lia.
  injection Hv as <-. injection Ha as <-.
  rewrite Lv, La, !fdiff_length.
  repeat split; assumption || reflexivity.
Defined.

(** ** Constant velocity (C8) *)

Lemma Forall_fdiff (P : Q -> Prop) (dt : Q) (l : list Q) :
  (forall i, (S i < length l)%nat ->
     P ((nth (S i) l 0 - nth i l 0) / dt)) ->
  Forall P (fdiff dt l).
Proof.
  intros H. apply Forall_nth. intros i d Hi.
  rewrite fdiff_length in Hi.
  rewrite (nth_indep _ d 0) by (rewrite fdiff_length; lia).
  rewrite fdiff_nth by lia. apply H. lia.
Qed.

(** The differences of a constant sequence vanish. *)
Lemma fdiff_const (dt c : Q) (l : list Q) :
  Forall (fun e => e == c) l -> Forall (fun e => e == 0) (fdiff dt l).
Proof.
  intros H. apply Forall_fdiff. intros i Hi.
  rewrite Forall_nth in H.
  rewrite (H (S i) 0 Hi), (H i 0 ltac:(lia)).
  unfold Qdiv. ring.
Qed.

(** C8.  A constant-velocity trajectory, [s[i] = vel * i * del_t], has an
    acceleration that is [0] everywhere and a jerk that is [0]
    everywhere. *)
Theorem constant_velocity (N : Z) (dt vel : Q) (s : list Q) :
  (3 <= N)%Z -> ~ dt == 0 ->
  (forall i, (i < length s)%nat ->
     nth i s 0 == vel * inject_Z (Z.of_nat i) * dt) ->
  exists acc jerk,
    a N dt s = Ok acc /\ j N dt s = Ok jerk /\
    length acc = (length s - 2)%nat /\
    length jerk = (length s - 3)%nat /\
    Forall (fun e => e == 0) acc /\
    Forall (fun e => e == 0) jerk.
Proof.
  intros HN Hdt Hs.
  assert (Hv : Forall (fun e => e == vel) (fdiff dt s)).
  { apply Forall_fdiff. intros i Hi.
    rewrite (Hs (S i) Hi), (Hs i ltac:(lia)).
    rewrite Nat2Z.inj_succ. unfold Z.succ. rewrite inject_Z_plus.
    field. exact Hdt. }
  assert (Ha := fdiff_const dt vel _ Hv).
  assert (Hj := fdiff_const dt 0 _ Ha).
  exists (fdiff dt (fdiff dt s)), (fdiff dt (fdiff dt (fdiff dt s))).
  rewrite a_ok, j_ok by lia. rewrite !fdiff_length.
  repeat split; try assumption; lia.
Qed.

Lemma constant_velocity_witness :
  (3 <= 4)%Z /\ ~ 1 == 0 /\
  exists acc jerk,
    a 4 1 [0; 2; 4; 6] = Ok acc /\ j 4 1 [0; 2; 4; 6] = Ok jerk /\
    length acc = 2%nat /\ length jerk = 1%nat /\
    Forall (fun e => e == 0) acc /\ Forall (fun e => e == 0) jerk.
Proof.
  assert (H1 : (3 <= 4)%Z) by lia.
  assert (H2 : ~ 1 == 0) by (vm_compute; discriminate).
  split; [exact H1|]. split; [exact H2|].
  apply (constant_velocity 4 1 2 [0; 2; 4; 6] H1 H2).
  intros i Hi.
  do 4 (destruct i as [|i]; [vm_compute; reflexivity|]).
  cbn in Hi. lia.
Defined.

(** ** Bound constraints (C4) *)

Lemma within_pinned (q p : Q) : within (Fin q, Fin q) p <-> p == q.
Proof.
  unfold within. cbn [fst snd]. split.
  - intros [H1 H2]. apply Qle_antisym; assumption.
  - intros H. rewrite H. split; apply Qle_refl.
Qed.

Lemma within_free (n : nat) (rest : list Q) :
  Forall2 within (repeat (Fin 0, PInf) n) rest <->
  length rest = n /\ Forall (fun e => 0 <= e) rest.
Proof.
  revert rest. induction n as [|n IH]; intros rest; cbn [repeat].
  - split.
    + intros H. inversion H. split; [reflexivity | constructor].
    + intros [H _]. destruct rest; [constructor | discriminate].
  - split.
    + intros H. inversion H as [|b q bs l Hq Hl]; subst.
      apply IH in Hl. destruct Hl as [Hlen Hall].
      split; [cbn; congruence|].
      constructor; [exact (proj1 Hq) | exact Hall].
    + intros [Hlen Hall]. destruct rest as [|q l]; [discriminate|].
      inversion Hall; subst. constructor.
      * split; [assumption | exact I].
      * apply IH. split; [cbn in Hlen; congruence | assumption].
Qed.

Lemma bounds_ok (N : Z) (dt v0 a0 : Q) :
  (3 <= N)%Z ->
  bounds N dt v0 a0 =
  Ok ((Fin 0, Fin 0) :: (Fin (v0 * dt), Fin (v0 * dt)) ::
      (Fin (a0 * dt ^ 2 + 2 * v0 * dt), Fin (a0 * dt ^ 2 + 2 * v0 * dt)) ::
      repeat (Fin 0, PInf) (Z.to_nat N - 3)).
Proof.
  intros HN. unfold bounds.
  remember (Z.to_nat N - 3)%nat as n eqn:En.
  replace (Z.to_nat N) with (S (S (S n))) by lia.
  reflexivity.
Qed.

(** The first velocity and the first acceleration of a trajectory whose
    first three samples are the pinned ones. *)
Lemma pinned_prefix (N : Z) (dt v0 a0 s0 s1 s2 : Q) (rest : list Q) :
  (3 <= N)%Z -> ~ dt == 0 ->
  s0 == 0 -> s1 == v0 * dt -> s2 == a0 * dt ^ 2 + 2 * v0 * dt ->
  exists v1 vs a1 acs,
    v N dt (s0 :: s1 :: s2 :: rest) = Ok (v1 :: vs) /\ v1 == v0 /\
    a N dt (s0 :: s1 :: s2 :: rest) = Ok (a1 :: acs) /\ a1 == a0.
Proof.
  intros HN Hdt H0 H1 H2.
  rewrite v_ok, a_ok by lia. rewrite !fdiff_cons.
  do 4 eexists. repeat split.
  - rewrite H0, H1. field. exact Hdt.
  - rewrite H0, H1, H2. field. exact Hdt.
Qed.

(** C4.  The bound constraints fix index [0] to [0], index [1] to
    [v0 * del_t] and index [2] to [a0 * del_t^2 + 2 * v0 * del_t], and
    bound every index from [3] on below by [0] and above by nothing; a
    trajectory whose first three entries take the pinned values has
    [velocity[0] = v0] and [acceleration[0] = a0]. *)
Theorem bounds_pin_initial_state (N : Z) (dt v0 a0 : Q) :
  (3 <= N)%Z -> ~ dt == 0 ->
  exists bs,
    bounds N dt v0 a0 = Ok bs /\
    bs = (Fin 0, Fin 0) :: (Fin (v0 * dt), Fin (v0 * dt)) ::
         (Fin (a0 * dt ^ 2 + 2 * v0 * dt),
          Fin (a0 * dt ^ 2 + 2 * v0 * dt)) ::
         repeat (Fin 0, PInf) (Z.to_nat N - 3) /\
    (forall x,
       satisfies_bounds bs x <->
       exists s0 s1 s2 rest,
         x = s0 :: s1 :: s2 :: rest /\
         s0 == 0 /\ s1 == v0 * dt /\ s2 == a0 * dt ^ 2 + 2 * v0 * dt /\
         length rest = (Z.to_nat N - 3)%nat /\
         Forall (fun e => 0 <= e) rest) /\
    (forall s0 s1 s2 rest,
       s0 == 0 -> s1 == v0 * dt -> s2 == a0 * dt ^ 2 + 2 * v0 * dt ->
       exists v1 vs a1 acs,
         v N dt (s0 :: s1 :: s2 :: rest) = Ok (v1 :: vs) /\ v1 == v0 /\
         a N dt (s0 :: s1 :: s2 :: rest) = Ok (a1 :: acs) /\ a1 == a0).
Proof.
  intros HN Hdt. eexists. split; [apply bounds_ok; exact HN|].
  split; [reflexivity|]. split.
  - intros x. unfold satisfies_bounds. split.
    + intros H.
      inversion H as [|b0 s0 bs0 x0 W0 H0]; subst; clear H.
      inversion H0 as [|b1 s1 bs1 x1 W1 H1]; subst; clear H0.
      inversion H1 as [|b2 s2 bs2 x2 W2 H2]; subst; clear H1.
      apply within_pinned in W0, W1, W2. apply within_free in H2.
      exists s0, s1, s2, x2. intuition.
    + intros (s0 & s1 & s2 & rest & -> & E0 & E1 & E2 & Hlen & Hall).
      do 3 (constructor; [apply within_pinned; assumption|]).
      apply within_free. split; assumption.
  - intros s0 s1 s2 rest. apply pinned_prefix; assumption.
Qed.

Lemma bounds_pin_initial_state_witness :
  (3 <= 30)%Z /\ ~ 10 / 29 == 0 /\
  exists bs, bounds 30 (10 / 29) 0 0 = Ok bs /\ length bs = 30%nat.
Proof.
  assert (H1 : (3 <= 30)%Z) by lia.
  assert (H2 : ~ 10 / 29 == 0) by (vm_compute; discriminate).
  split; [exact H1|]. split; [exact H2|].
  destruct (bounds_pin_initial_state 30 (10 / 29) 0 0 H1 H2)
    as (bs & Hb & Hbs & _).
  exists bs. split; [exact Hb|]. rewrite Hbs. reflexivity.
Defined.

(** ** The obstacle constraint (C3) *)




(** ** Mode enumeration (C6) *)

Module ModeFacts.
Import ModeEnumerator.

Lemma mode_of_length (M k : nat) : length (mode_of M k) = M.
Proof. unfold mode_of. rewrite length_map, length_seq. reflexivity. Qed.

Lemma mode_of_succ (M k : nat) :
  mode_of (S M) k = Nat.odd k :: mode_of M (Nat.div2 k).
Proof.
  unfold mode_of. cbn [seq map]. f_equal.
  rewrite <- seq_shift, map_map. reflexivity.
Qed.

Lemma of_bits_bound (bs : list bool) : (of_bits bs < 2 ^ length bs)%nat.
Proof.
  induction bs as [|b bs IH]; cbn [of_bits length Nat.pow]; [lia|].
  destruct b; cbn [Nat.b2n]; lia.
Qed.

Lemma of_bits_mode_of (M k : nat) :
  (k < 2 ^ M)%nat -> of_bits (mode_of M k) = k.
Proof.
  revert k. induction M as [|M IH]; intros k Hk.
  - cbn in Hk. cbn. lia.
  - rewrite mode_of_succ. cbn [of_bits].
    pose proof (Nat.div2_odd k) as Hodd.
    rewrite IH; [lia|].
    cbn [Nat.pow] in Hk. destruct (Nat.odd k); cbn [Nat.b2n] in Hodd; lia.
Qed.

Lemma mode_of_of_bits (bs : list bool) :
  mode_of (length bs) (of_bits bs) = bs.
Proof.
  induction bs as [|b bs IH]; [reflexivity|].
  cbn [length of_bits]. rewrite mode_of_succ. f_equal.
  - rewrite Nat.odd_add_mul_2. destruct b; reflexivity.
  - rewrite Nat.div2_div, Nat.add_b2n_double_div2. exact IH.
Qed.

Lemma drain_seq (M fuel k : nat) :
  (k + fuel <= 2 ^ M)%nat ->
  drain M fuel k = map (mode_of M) (seq k fuel).
Proof.
  revert k. induction fuel as [|fuel IH]; intros k Hk; [reflexivity|].
  cbn [drain seq map]. unfold next.
  destruct (Nat.ltb_spec k (2 ^ M)); [|lia].
  f_equal. apply IH. lia.
Qed.

(** Above the cap the enumerator refuses. *)
Lemma enumerate_too_many (cap : nat) (obstacles : list Obstacle) :
  (cap < length obstacles)%nat ->
  enumerate cap obstacles = inl TooManyObstacles.
Proof.
  intros H. unfold enumerate.
  destruct (Nat.ltb_spec cap (length obstacles)); [reflexivity | lia].
Qed.

(** After [2^M] modes the sequence is at its end. *)
Lemma next_end (M : nat) : next M (2 ^ M) = None.
Proof. unfold next. rewrite Nat.ltb_irrefl. reflexivity. Qed.

Lemma modes_NoDup (M : nat) : NoDup (map (mode_of M) (seq 0 (2 ^ M))).
Proof.
  apply (NoDup_map_inv of_bits). rewrite map_map.
  rewrite (map_ext_in _ (fun k => k)), map_id; [apply seq_NoDup|].
  intros k Hk. apply in_seq in Hk. apply of_bits_mode_of. lia.
Qed.

Lemma modes_cover (M : nat) (m : ObstacleMode) :
  In m (map (mode_of M) (seq 0 (2 ^ M))) <-> length m = M.
Proof.
  split.
  - intros H. apply in_map_iff in H. destruct H as (k & <- & _).
    apply mode_of_length.
  - intros <-. apply in_map_iff. exists (of_bits m).
    split; [apply mode_of_of_bits|].
    apply in_seq. pose proof (of_bits_bound m). lia.
Qed.

End ModeFacts.

(** C6.  For [M] obstacles, [M] within the cap, the mode enumerator yields
    exactly [2^M] mode vectors, pairwise distinct, and they are all the
    boolean vectors of length [M]; for [M = 0] it yields one mode, the
    empty vector, which constrains nothing. *)
Theorem enumerate_all_modes (cap : nat) (obstacles : list Obstacle) :
  (length obstacles <= cap)%nat ->
  exists modes,
    ModeEnumerator.enumerate cap obstacles = inr modes /\
    length modes = (2 ^ length obstacles)%nat /\
    NoDup modes /\
    (forall m, In m modes <-> length m = length obstacles) /\
    (length obstacles = 0%nat -> modes = [[]]).
Proof.
  intros Hcap. unfold ModeEnumerator.enumerate.
  destruct (Nat.ltb_spec cap (length obstacles)); [lia|].
  eexists. split; [reflexivity|].
  rewrite ModeFacts.drain_seq by lia.
  split; [rewrite length_map, length_seq; reflexivity|].
  split; [apply ModeFacts.modes_NoDup|].
  split; [intros m; apply ModeFacts.modes_cover|].
  intros ->. reflexivity.
Qed.

Lemma enumerate_all_modes_witness :
  (length [mkObstacle 10 15 90 110] <= 20)%nat /\
  exists modes,
    ModeEnumerator.enumerate 20 [mkObstacle 10 15 90 110] = inr modes /\
    length modes = 2%nat /\ NoDup modes.
Proof.
  assert (H : (length [mkObstacle 10 15 90 110] <= 20)%nat) by (cbn; lia).
  split; [exact H|].
  destruct (enumerate_all_modes 20 [mkObstacle 10 15 90 110] H)
    as (modes & Hm & Hlen & Hnd & _).
  exists modes. repeat split; assumption.
Defined.

(** * Further properties of the notebook's code *)

(** ** Which calls return *)

(** X1.  Whether a kinematic, cost or limit function returns depends on the
    global [N] alone, never on the trajectory or the time step: [v] and
    [cons_vel] return iff [N >= 1], [a] and [cons_acc] iff [N >= 2], [j]
    and [J] iff [N >= 3]; an empty trajectory is accepted like any
    other. *)
Theorem return_thresholds (N : Z) (dt v_des v_max a_max : Q) (x : list Q) :
  is_ok (v N dt x) = (1 <=? N)%Z /\
  is_ok (cons_vel N dt v_max x) = (1 <=? N)%Z /\
  is_ok (a N dt x) = (2 <=? N)%Z /\
  is_ok (cons_acc N dt a_max x) = (2 <=? N)%Z /\
  is_ok (j N dt x) = (3 <=? N)%Z /\
  is_ok (J N dt v_des x) = (3 <=? N)%Z.
Proof.
  unfold cons_vel, cons_acc.
  repeat split.
  - destruct (Z.leb_spec 1 N);
      [rewrite v_ok by lia | rewrite v_raise by lia]; reflexivity.
  - destruct (Z.leb_spec 1 N);
      [rewrite v_ok by lia | rewrite v_raise by lia]; reflexivity.
  - destruct (Z.leb_spec 2 N);
      [rewrite a_ok by lia | rewrite a_raise by lia]; reflexivity.
  - destruct (Z.leb_spec 2 N);
      [rewrite a_ok by lia | rewrite a_raise by lia]; reflexivity.
  - destruct (Z.leb_spec 3 N);
      [rewrite j_ok by lia | rewrite j_raise by lia]; reflexivity.
  - destruct (Z.leb_spec 3 N);
      [rewrite J_ok by lia | rewrite J_raise by lia]; reflexivity.
Qed.

(** X2.  The arrays preallocated with [np.zeros] are never used: once [N]
    is large enough for the calls to return, the results do not depend on
    [N], only on the trajectory passed in, whatever its length. *)
Theorem results_ignore_N (N N' : Z) (dt v_des : Q) (x : list Q) :
  (3 <= N)%Z -> (3 <= N')%Z ->
  v N dt x = v N' dt x /\ a N dt x = a N' dt x /\
  j N dt x = j N' dt x /\ J N dt v_des x = J N' dt v_des x.
Proof.
  intros H H'.
  rewrite !v_ok, !a_ok, !j_ok, !J_ok by lia. repeat split.
Qed.

Lemma results_ignore_N_witness :
  (3 <= 30)%Z /\ (3 <= 4)%Z /\
  J 30 (10 / 29) 20 x_0 = J 4 (10 / 29) 20 x_0.
Proof.
  assert (H1 : (3 <= 30)%Z) by lia.
  assert (H2 : (3 <= 4)%Z) by lia.
  split; [exact H1|]. split; [exact H2|].
  exact (proj2 (proj2 (proj2
           (results_ignore_N 30 4 (10 / 29) 20 x_0 H1 H2)))).
Defined.

(** X3.  The bound list is built exactly when [N >= 3]; it then has [N]
    entries.  For a smaller [N] one of the three assignments to the
    indices [0], [1], [2] raises [IndexError]. *)
Theorem bounds_needs_three (N : Z) (dt vel_init acc_init : Q) :
  is_ok (bounds N dt vel_init acc_init) = (3 <=? N)%Z /\
  match bounds N dt vel_init acc_init with
  | Ok bs => length bs = Z.to_nat N
  | Raise e => e = IndexError
  end.
Proof.
  destruct (Z.leb_spec 3 N) as [H|H].
  - rewrite bounds_ok by lia. split; [reflexivity|].
    cbn [length]. rewrite repeat_length. lia.
  - unfold bounds.
    destruct (Z.to_nat N) as [|[|[|n]]] eqn:E; try lia; split; reflexivity.
Qed.

(** ** Closed forms of the differences *)

(** X4.  Acceleration and jerk are the second and the third difference of
    the positions: [a[i] = (x[i+2] - 2 x[i+1] + x[i]) / del_t^2] and
    [j[i] = (x[i+3] - 3 x[i+2] + 3 x[i+1] - x[i]) / del_t^3]. *)
Theorem difference_stencils (N : Z) (dt : Q) (x : list Q) :
  (3 <= N)%Z -> ~ dt == 0 ->
  exists acc jerk,
    a N dt x = Ok acc /\ j N dt x = Ok jerk /\
    (forall i, (i < length acc)%nat ->
       nth i acc 0 ==
       (nth (i + 2) x 0 - 2 * nth (i + 1) x 0 + nth i x 0) / dt ^ 2) /\
    (forall i, (i < length jerk)%nat ->
       nth i jerk 0 ==
       (nth (i + 3) x 0 - 3 * nth (i + 2) x 0 + 3 * nth (i + 1) x 0
        - nth i x 0) / dt ^ 3).
Proof.
  intros HN Hdt.
  exists (fdiff dt (fdiff dt x)), (fdiff dt (fdiff dt (fdiff dt x))).
  rewrite a_ok, j_ok by lia. repeat split.
  - intros i Hi. rewrite !fdiff_length in Hi.
    rewrite fdiff_nth by (rewrite fdiff_length; lia).
    rewrite !fdiff_nth by lia.
    replace (i + 2)%nat with (S (S i)) by lia.
    replace (i + 1)%nat with (S i) by lia.
    field. exact Hdt.
  - intros i Hi. rewrite !fdiff_length in Hi.
    rewrite fdiff_nth by (rewrite !fdiff_length; lia).
    rewrite !(fdiff_nth dt (fdiff dt x)) by (rewrite fdiff_length; lia).
    rewrite !fdiff_nth by lia.
    replace (i + 3)%nat with (S (S (S i))) by lia.
    replace (i + 2)%nat with (S (S i)) by lia.
    replace (i + 1)%nat with (S i) by lia.
    field. exact Hdt.
Qed.

Lemma difference_stencils_witness :
  (3 <= 30)%Z /\ ~ 10 / 29 == 0 /\
  exists acc jerk,
    a 30 (10 / 29) x_0 = Ok acc /\ j 30 (10 / 29) x_0 = Ok jerk.
Proof.
  assert (H1 : (3 <= 30)%Z) by lia.
  assert (H2 : ~ 10 / 29 == 0) by (vm_compute; discriminate).
  split; [exact H1|]. split; [exact H2|].
  destruct (difference_stencils 30 (10 / 29) x_0 H1 H2)
    as (acc & jerk & Ha & Hj & _).
  exists acc, jerk. split; assumption.
Defined.

(** ** Positions from velocities *)

Lemma eqlist_nth (l1 l2 : list Q) :
  length l1 = length l2 ->
  (forall i, (i < length l1)%nat -> nth i l1 0 == nth i l2 0) ->
  l1 =l= l2.
Proof.
  revert l2. induction l1 as [|p l1 IH]; intros [|q l2] Hlen H;
    try discriminate; constructor.
  - apply (H 0%nat). cbn. lia.
  - apply IH; [cbn in Hlen; congruence|].
    intros i Hi. apply (H (S i)). cbn. lia.
Qed.

Lemma nth_eqlist (l1 l2 : list Q) (i : nat) :
  l1 =l= l2 -> nth i l1 0 == nth i l2 0.
Proof.
  intros H. revert i. induction H; intros [|i]; cbn; auto; reflexivity.
Qed.

Lemma last_nth (l : list Q) : last l 0 = nth (length l - 1) l 0.
Proof.
  induction l as [|p l IH]; [reflexivity|].
  destruct l as [|q r]; [reflexivity|].
  change (last (p :: q :: r) 0) with (last (q :: r) 0).
  rewrite IH. cbn [length].
  replace (S (S (length r)) - 1)%nat with (S (S (length r) - 1)) by lia.
  reflexivity.
Qed.

Lemma fdiff_prefix_sum (dt : Q) (x : list Q) (i : nat) :
  ~ dt == 0 -> (i < length x)%nat ->
  nth i x 0 == nth 0 x 0 + dt * big_sum (fun k => nth k (fdiff dt x) 0) i.
Proof.
  intros Hdt. induction i as [|i IH]; intros Hi.
  - cbn [big_sum]. ring.
  - cbn [big_sum]. rewrite fdiff_nth by lia.
    specialize (IH ltac:(lia)).
    assert (E : dt * ((nth (S i) x 0 - nth i x 0) / dt)
                == nth (S i) x 0 - nth i x 0) by (field; exact Hdt).
    rewrite Qmult_plus_distr_r, E, Qplus_assoc, <- IH. ring.
Qed.

(** X5.  Summing the velocities gives the positions back: every sample is
    the first one plus [del_t] times the sum of the velocities before it;
    in particular [del_t * sum(v(x)) = x[-1] - x[0]]. *)
Theorem positions_from_velocities (N : Z) (dt : Q) (x : list Q) :
  (1 <= N)%Z -> ~ dt == 0 ->
  exists vel,
    v N dt x = Ok vel /\
    (forall i, (i < length x)%nat ->
       nth i x 0 == nth 0 x 0 + dt * big_sum (fun k => nth k vel 0) i) /\
    (x <> [] -> dt * Np.sum vel == last x 0 - nth 0 x 0).
Proof.
  intros HN Hdt. exists (fdiff dt x). rewrite v_ok by lia.
  repeat split; [intros i Hi; apply fdiff_prefix_sum; assumption|].
  intros Hx.
  rewrite <- (map_id (fdiff dt x)) at 1.
  rewrite (sum_map_big_sum (fun e => e)), fdiff_length.
  destruct x as [|p x]; [congruence|].
  rewrite last_nth.
  rewrite (fdiff_prefix_sum dt (p :: x) (length (p :: x) - 1) Hdt)
    by (cbn; lia).
  ring.
Qed.

Lemma positions_from_velocities_witness :
  (1 <= 30)%Z /\ ~ 10 / 29 == 0 /\
  exists vel,
    v 30 (10 / 29) x_0 = Ok vel /\
    (10 / 29) * Np.sum vel == last x_0 0 - nth 0 x_0 0.
Proof.
  assert (H1 : (1 <= 30)%Z) by lia.
  assert (H2 : ~ 10 / 29 == 0) by (vm_compute; discriminate).
  split; [exact H1|]. split; [exact H2|].
  destruct (positions_from_velocities 30 (10 / 29) x_0 H1 H2)
    as (vel & Hv & _ & Hsum).
  exists vel. split; [exact Hv|].
  apply Hsum. discriminate.
Defined.

(** X6.  Two trajectories of the same length with the same first sample
    and the same velocities are the same trajectory. *)
Theorem velocities_determine_positions (N : Z) (dt : Q) (x y : list Q) :
  (1 <= N)%Z -> ~ dt == 0 ->
  length x = length y -> nth 0 x 0 == nth 0 y 0 ->
  eqres (v N dt x) (v N dt y) -> x =l= y.
Proof.
  intros HN Hdt Hlen H0 Hv.
  rewrite !v_ok in Hv by lia. cbn [eqres] in Hv.
  apply eqlist_nth; [exact Hlen|].
  intros i Hi.
  rewrite (fdiff_prefix_sum dt x i Hdt Hi).
  rewrite (fdiff_prefix_sum dt y i Hdt ltac:(lia)), H0.
  assert (E : forall n, big_sum (fun k => nth k (fdiff dt x) 0) n
                        == big_sum (fun k => nth k (fdiff dt y) 0) n).
  { induction n as [|n IH]; [reflexivity|].
    cbn [big_sum]. rewrite IH, (nth_eqlist _ _ n Hv). reflexivity. }
  rewrite E. reflexivity.
Qed.

Lemma velocities_determine_positions_witness :
  (1 <= 4)%Z /\ ~ 1 == 0 /\ [0; 1; 3; 6] =l= [0; 2 / 2; 3; 12 / 2].
Proof.
  assert (H1 : (1 <= 4)%Z) by lia.
  assert (H2 : ~ 1 == 0) by (vm_compute; discriminate).
  split; [exact H1|]. split; [exact H2|].
  apply (velocities_determine_positions 4 1 _ _ H1 H2).
  - reflexivity.
  - reflexivity.
  - cbn. repeat constructor.
Defined.

(** ** Where the cost vanishes *)

Lemma sq_zero (p : Q) : p ^ 2 == 0 -> p == 0.
Proof.
  intros H. change (p ^ 2) with (p * p) in H.
  destruct (Qmult_integral _ _ H); assumption.
Qed.

Lemma sum_sq_zero (l : list Q) :
  Np.sum (Np.sq l) == 0 <-> Forall (fun e => e == 0) l.
Proof.
  induction l as [|p l IH]; [split; [constructor | reflexivity]|].
  unfold Np.sq in *. cbn [map]. rewrite sum_cons.
  pose proof (Qsqr_nonneg p) as Hp.
  pose proof (sum_sq_nonneg l) as Hl. unfold Np.sq in Hl.
  split.
  - intros H. constructor.
    + apply sq_zero. lra.
    + apply IH. lra.
  - intros H. inversion H as [|p' l' E Hall]; subst.
    apply IH in Hall. rewrite Hall, E. reflexivity.
Qed.

(** X7.  With a positive time step the cost is [0] exactly for the
    trajectories every velocity of which is the desired velocity; any
    other trajectory costs more. *)
Theorem J_zero_iff (N : Z) (dt v_des : Q) (x : list Q) :
  (3 <= N)%Z -> 0 < dt ->
  exists vel r,
    v N dt x = Ok vel /\ J N dt v_des x = Ok r /\
    (r == 0 <-> Forall (fun e => e == v_des) vel) /\
    (~ Forall (fun e => e == v_des) vel -> 0 < r).
Proof.
  intros HN Hdt. exists (fdiff dt x). eexists.
  rewrite v_ok, J_ok by lia.
  split; [reflexivity|]. split; [reflexivity|].
  set (S1 := Np.sum (Np.sq (Np.sub_s (fdiff dt x) v_des))).
  set (S2 := Np.sum (Np.sq (fdiff dt (fdiff dt x)))).
  set (S3 := Np.sum (Np.sq (fdiff dt (fdiff dt (fdiff dt x))))).
  pose proof (sum_sq_nonneg (Np.sub_s (fdiff dt x) v_des)) as P1.
  pose proof (sum_sq_nonneg (fdiff dt (fdiff dt x))) as P2.
  pose proof (sum_sq_nonneg (fdiff dt (fdiff dt (fdiff dt x)))) as P3.
  fold S1 in P1. fold S2 in P2. fold S3 in P3.
  assert (Hiff : (1 # 2) * (S1 + S2 + S3) * dt == 0 <->
                 Forall (fun e => e == v_des) (fdiff dt x)).
  { split.
    - intros H.
      assert (E1 : S1 == 0).
      { destruct (Qmult_integral _ _ H) as [H'|H']; [|lra].
        destruct (Qmult_integral _ _ H') as [H''|H''];
          [discriminate H'' | lra]. }
      apply sum_sq_zero in E1. unfold Np.sub_s in E1.
      rewrite Forall_map in E1.
      eapply Forall_impl; [|exact E1]. cbv beta. intros e He. lra.
    - intros H.
      assert (E1 : S1 == 0).
      { apply sum_sq_zero. unfold Np.sub_s. rewrite Forall_map.
        eapply Forall_impl; [|exact H]. cbv beta. intros e He. lra. }
      pose proof (fdiff_const dt v_des _ H) as Ha.
      pose proof (fdiff_const dt 0 _ Ha) as Hj.
      apply sum_sq_zero in Ha, Hj. fold S2 in Ha. fold S3 in Hj.
      rewrite E1, Ha, Hj. ring. }
  split; [exact Hiff|].
  intros Hne.
  assert (Hge : 0 <= (1 # 2) * (S1 + S2 + S3) * dt).
  { apply Qmult_le_0_compat; [apply Qmult_le_0_compat|]; lra. }
  destruct (Qlt_le_dec 0 ((1 # 2) * (S1 + S2 + S3) * dt)) as [|Hle];
    [assumption|].
  exfalso. apply Hne, Hiff. apply Qle_antisym; assumption.
Qed.

Lemma J_zero_iff_witness :
  (3 <= 4)%Z /\ 0 < 1 /\
  exists r, J 4 1 2 [0; 2; 4; 6] = Ok r /\ r == 0.
Proof.
  assert (H1 : (3 <= 4)%Z) by lia.
  assert (H2 : 0 < 1) by reflexivity.
  split; [exact H1|]. split; [exact H2|].
  destruct (J_zero_iff 4 1 2 [0; 2; 4; 6] H1 H2)
    as (vel & r & Hv & HJ & Hiff & _).
  exists r. split; [exact HJ|].
  apply Hiff. vm_compute in Hv. injection Hv as <-.
  repeat constructor.
Defined.

(** X8.  A trajectory of fewer than two samples has no velocity at all,
    and its cost is [0] whatever the desired velocity. *)
Theorem J_short_trajectory (N : Z) (dt v_des : Q) (x : list Q) :
  (3 <= N)%Z -> (length x <= 1)%nat ->
  exists r, v N dt x = Ok [] /\ J N dt v_des x = Ok r /\ r == 0.
Proof.
  intros HN Hx. rewrite v_ok, J_ok by lia.
  destruct x as [|p [|q r]]; [| |cbn in Hx; lia];
    (eexists; split; [reflexivity|]; split; [reflexivity|]);
    cbn; ring.
Qed.

Lemma J_short_trajectory_witness :
  (3 <= 30)%Z /\ (length [5] <= 1)%nat /\
  exists r, J 30 (10 / 29) 20 [5] = Ok r /\ r == 0.
Proof.
  assert (H1 : (3 <= 30)%Z) by lia.
  assert (H2 : (length [5] <= 1)%nat) by (cbn; lia).
  split; [exact H1|]. split; [exact H2|].
  destruct (J_short_trajectory 30 (10 / 29) 20 [5] H1 H2)
    as (r & _ & HJ & Hr).
  exists r. split; assumption.
Defined.

(** ** Constant acceleration *)

Lemma idx_succ (i : nat) : idx (S i) == idx i + 1.
Proof.
  unfold idx. rewrite Nat2Z.inj_succ. unfold Z.succ.
  rewrite inject_Z_plus. reflexivity.
Qed.

(** X9.  A trajectory that starts at [0] with velocity [v0] and keeps the
    acceleration [a0], [s[i] = v0*i*del_t + a0*del_t^2*i*(i-1)/2], has the
    velocities [v0 + a0*i*del_t], the acceleration [a0] everywhere and the
    jerk [0] everywhere; its first three samples are the values the bound
    constraints pin. *)
Theorem constant_acceleration (N : Z) (dt v0 a0 : Q) (s : list Q) :
  (3 <= N)%Z -> ~ dt == 0 ->
  (forall i, (i < length s)%nat ->
     nth i s 0 ==
     v0 * idx i * dt + a0 * dt ^ 2 * (idx i * (idx i - 1) / 2)) ->
  exists vel acc jerk,
    v N dt s = Ok vel /\ a N dt s = Ok acc /\ j N dt s = Ok jerk /\
    (forall i, (i < length vel)%nat ->
       nth i vel 0 == v0 + a0 * idx i * dt) /\
    Forall (fun e => e == a0) acc /\
    Forall (fun e => e == 0) jerk /\
    ((3 <= length s)%nat ->
     nth 0 s 0 == 0 /\ nth 1 s 0 == v0 * dt /\
     nth 2 s 0 == a0 * dt ^ 2 + 2 * v0 * dt).
Proof.
  intros HN Hdt Hs.
  exists (fdiff dt s), (fdiff dt (fdiff dt s)),
    (fdiff dt (fdiff dt (fdiff dt s))).
  rewrite v_ok, a_ok, j_ok by lia.
  assert (Hv : forall i, (i < length (fdiff dt s))%nat ->
                 nth i (fdiff dt s) 0 == v0 + a0 * idx i * dt).
  { intros i Hi. rewrite fdiff_length in Hi.
    rewrite fdiff_nth by lia.
    rewrite (Hs (S i)), (Hs i) by lia. rewrite idx_succ.
    field. exact Hdt. }
  assert (Ha : Forall (fun e => e == a0) (fdiff dt (fdiff dt s))).
  { apply Forall_fdiff. intros i Hi. cbv beta.
    rewrite (Hv (S i)), (Hv i) by lia. rewrite idx_succ.
    field. exact Hdt. }
  repeat match goal with |- _ /\ _ => split end;
    try reflexivity; try assumption.
  - exact (fdiff_const dt a0 _ Ha).
  - intros Hlen.
    repeat split;
      [rewrite (Hs 0%nat) by lia | rewrite (Hs 1%nat) by lia
      | rewrite (Hs 2%nat) by lia];
      unfold idx; simpl Z.of_nat; field.
Qed.

Lemma constant_acceleration_witness :
  (3 <= 4)%Z /\ ~ 1 == 0 /\
  exists acc jerk,
    a 4 1 [0; 1; 4; 9] = Ok acc /\ j 4 1 [0; 1; 4; 9] = Ok jerk /\
    Forall (fun e => e == 2) acc /\ Forall (fun e => e == 0) jerk.
Proof.
  assert (H1 : (3 <= 4)%Z) by lia.
  assert (H2 : ~ 1 == 0) by (vm_compute; discriminate).
  split; [exact H1|]. split; [exact H2|].
  destruct (constant_acceleration 4 1 1 2 [0; 1; 4; 9] H1 H2)
    as (vel & acc & jerk & _ & Ha & Hj & _ & Hacc & Hjerk & _).
  - intros i Hi.
    do 4 (destruct i as [|i]; [vm_compute; reflexivity|]).
    cbn in Hi. lia.
  - exists acc, jerk. repeat split; assumption.
Defined.

(** ** Bounds against limits *)

Lemma satisfies_bounds_prefix (N : Z) (dt v0 a0 : Q) (bs : list bound)
      (x : list Q) :
  (3 <= N)%Z -> bounds N dt v0 a0 = Ok bs -> satisfies_bounds bs x ->
  exists s0 s1 s2 rest,
    x = s0 :: s1 :: s2 :: rest /\
    s0 == 0 /\ s1 == v0 * dt /\ s2 == a0 * dt ^ 2 + 2 * v0 * dt.
Proof.
  intros HN Hb H. rewrite bounds_ok in Hb by exact HN.
  injection Hb as <-. unfold satisfies_bounds in H.
  inversion H as [|b0 s0 bs0 x0 W0 H0]; subst; clear H.
  inversion H0 as [|b1 s1 bs1 x1 W1 H1]; subst; clear H0.
  inversion H1 as [|b2 s2 bs2 x2 W2 H2]; subst; clear H1.
  apply within_pinned in W0, W1, W2.
  exists s0, s1, s2, x2. repeat split; assumption.
Qed.

(** X10.  On every trajectory within the bounds the first component of the
    velocity-limit constraint is [v_max - vel_init] and the first component
    of the acceleration-limit constraint is [a_max - acc_init]: when the
    initial state is already over a limit, no trajectory within the bounds
    meets that limit. *)
Theorem limits_at_pinned_start (N : Z) (dt v0 a0 v_max a_max : Q)
        (bs : list bound) (x : list Q) :
  (3 <= N)%Z -> ~ dt == 0 ->
  bounds N dt v0 a0 = Ok bs -> satisfies_bounds bs x ->
  exists cv0 cvs ca0 cas,
    cons_vel N dt v_max x = Ok (cv0 :: cvs) /\ cv0 == v_max - v0 /\
    cons_acc N dt a_max x = Ok (ca0 :: cas) /\ ca0 == a_max - a0 /\
    (v_max < v0 -> ~ nonneg (cv0 :: cvs)) /\
    (a_max < a0 -> ~ nonneg (ca0 :: cas)).
Proof.
  intros HN Hdt Hb Hx.
  destruct (satisfies_bounds_prefix N dt v0 a0 bs x HN Hb Hx)
    as (s0 & s1 & s2 & rest & -> & E0 & E1 & E2).
  destruct (pinned_prefix N dt v0 a0 s0 s1 s2 rest HN Hdt E0 E1 E2)
    as (v1 & vs & a1 & acs & Hv & Ev & Ha & Ea).
  unfold cons_vel, cons_acc. rewrite Hv, Ha. cbn [bind Np.s_sub map].
  do 4 eexists.
  split; [reflexivity|]. split; [rewrite Ev; reflexivity|].
  split; [reflexivity|]. split; [rewrite Ea; reflexivity|].
  split; intros Hlt Hnn; inversion Hnn as [|c cs Hc _]; subst; lra.
Qed.

Lemma limits_at_pinned_start_witness :
  (3 <= 4)%Z /\ ~ 1 == 0 /\
  bounds 4 1 1 0 = Ok [(Fin 0, Fin 0); (Fin (1 * 1), Fin (1 * 1));
                       (Fin (0 * 1 ^ 2 + 2 * 1 * 1),
                        Fin (0 * 1 ^ 2 + 2 * 1 * 1));
                       (Fin 0, PInf)] /\
  exists cv0 cvs, cons_vel 4 1 30 [0; 1; 2; 3] = Ok (cv0 :: cvs) /\
                  cv0 == 30 - 1.
Proof.
  assert (H1 : (3 <= 4)%Z) by lia.
  assert (H2 : ~ 1 == 0) by (vm_compute; discriminate).
  assert (H3 : bounds 4 1 1 0
               = Ok [(Fin 0, Fin 0); (Fin (1 * 1), Fin (1 * 1));
                     (Fin (0 * 1 ^ 2 + 2 * 1 * 1),
                      Fin (0 * 1 ^ 2 + 2 * 1 * 1));
                     (Fin 0, PInf)]) by reflexivity.
  split; [exact H1|]. split; [exact H2|]. split; [exact H3|].
  destruct (limits_at_pinned_start 4 1 1 0 30 15 _ [0; 1; 2; 3] H1 H2 H3)
    as (cv0 & cvs & ca0 & cas & Hcv & Ecv & _).
  - unfold satisfies_bounds.
    repeat constructor; cbn; vm_compute; discriminate.
  - exists cv0, cvs. split; assumption.
Defined.

(** ** Convexity *)

Lemma mix_length (lam : Q) (x y : list Q) :
  length x = length y -> length (mix lam x y) = length x.
Proof.
  revert y. induction x as [|p x IH]; intros [|q y] H; try discriminate;
    [reflexivity|].
  cbn [mix length]. f_equal. apply IH. cbn in H. congruence.
Qed.

Lemma fdiff_mix (dt lam : Q) (x y : list Q) :
  length x = length y ->
  fdiff dt (mix lam x y) =l= mix lam (fdiff dt x) (fdiff dt y).
Proof.
  revert y. induction x as [|p x IH]; intros [|q y] H; try discriminate;
    [constructor|].
  destruct x as [|p' x], y as [|q' y]; try discriminate; [constructor|].
  specialize (IH (q' :: y) ltac:(cbn in H |- *; congruence)).
  cbn [mix] in IH |- *. rewrite !fdiff_cons. cbn [mix].
  constructor; [unfold Qdiv; ring | exact IH].
Qed.

Lemma sub_s_mix (lam c : Q) (x y : list Q) :
  length x = length y ->
  Np.sub_s (mix lam x y) c =l= mix lam (Np.sub_s x c) (Np.sub_s y c).
Proof.
  revert y. induction x as [|p x IH]; intros [|q y] H; try discriminate;
    [constructor|].
  unfold Np.sub_s in *. cbn [mix map].
  constructor; [ring | apply IH; cbn in H; congruence].
Qed.

Lemma sq_mix (lam p q : Q) :
  0 <= lam -> lam <= 1 ->
  (lam * p + (1 - lam) * q) ^ 2 <= lam * p ^ 2 + (1 - lam) * q ^ 2.
Proof.
  intros H0 H1.
  assert (E : lam * p ^ 2 + (1 - lam) * q ^ 2
              - (lam * p + (1 - lam) * q) ^ 2
              == lam * (1 - lam) * (p - q) ^ 2) by ring.
  assert (P : 0 <= lam * (1 - lam) * (p - q) ^ 2).
  { apply Qmult_le_0_compat; [apply Qmult_le_0_compat; lra|].
    apply Qsqr_nonneg. }
  lra.
Qed.

Lemma sum_sq_mix (lam : Q) (x y : list Q) :
  0 <= lam -> lam <= 1 -> length x = length y ->
  Np.sum (Np.sq (mix lam x y))
  <= lam * Np.sum (Np.sq x) + (1 - lam) * Np.sum (Np.sq y).
Proof.
  intros H0 H1. revert y.
  induction x as [|p x IH]; intros [|q y] H; try discriminate.
  - cbn. lra.
  - specialize (IH y ltac:(cbn in H; congruence)).
    unfold Np.sq in *. cbn [mix map]. rewrite !sum_cons.
    pose proof (sq_mix lam p q H0 H1). lra.
Qed.

(** X11.  The cost is convex: on a convex combination of two trajectories
    of the same length it is at most the same combination of their
    costs. *)
Theorem J_convex (N : Z) (dt v_des lam : Q) (x y : list Q) :
  (3 <= N)%Z -> 0 < dt -> 0 <= lam -> lam <= 1 -> length x = length y ->
  exists rx ry rm,
    J N dt v_des x = Ok rx /\ J N dt v_des y = Ok ry /\
    J N dt v_des (mix lam x y) = Ok rm /\
    rm <= lam * rx + (1 - lam) * ry.
Proof.
  intros HN Hdt H0 H1 Hlen.
  rewrite !J_ok by lia. do 3 eexists. repeat split.
  assert (L1 : length (fdiff dt x) = length (fdiff dt y))
    by (rewrite !fdiff_length; lia).
  assert (L2 : length (fdiff dt (fdiff dt x))
               = length (fdiff dt (fdiff dt y)))
    by (rewrite !fdiff_length; lia).
  assert (L1s : length (Np.sub_s (fdiff dt x) v_des)
                = length (Np.sub_s (fdiff dt y) v_des))
    by (unfold Np.sub_s; rewrite !length_map; exact L1).
  pose proof (fdiff_mix dt lam x y Hlen) as Ev.
  rewrite Ev, (fdiff_mix dt lam _ _ L1), (fdiff_mix dt lam _ _ L2).
  rewrite (sub_s_mix lam v_des _ _ L1).
  assert (L3 : length (fdiff dt (fdiff dt (fdiff dt x)))
               = length (fdiff dt (fdiff dt (fdiff dt y))))
    by (rewrite !fdiff_length; lia).
  pose proof (sum_sq_mix lam _ _ H0 H1 L1s) as P1.
  pose proof (sum_sq_mix lam _ _ H0 H1 L2) as P2.
  pose proof (sum_sq_mix lam _ _ H0 H1 L3) as P3.
  set (S1 := Np.sum (Np.sq (mix lam (Np.sub_s (fdiff dt x) v_des)
                                    (Np.sub_s (fdiff dt y) v_des)))) in *.
  set (S2 := Np.sum (Np.sq (mix lam (fdiff dt (fdiff dt x))
                                    (fdiff dt (fdiff dt y))))) in *.
  set (S3 := Np.sum (Np.sq (mix lam (fdiff dt (fdiff dt (fdiff dt x)))
                                    (fdiff dt (fdiff dt (fdiff dt y)))))) in *.
  apply Qle_trans with
    ((1 # 2) *
     (lam * Np.sum (Np.sq (Np.sub_s (fdiff dt x) v_des))
      + (1 - lam) * Np.sum (Np.sq (Np.sub_s (fdiff dt y) v_des))
      + (lam * Np.sum (Np.sq (fdiff dt (fdiff dt x)))
         + (1 - lam) * Np.sum (Np.sq (fdiff dt (fdiff dt y))))
      + (lam * Np.sum (Np.sq (fdiff dt (fdiff dt (fdiff dt x))))
         + (1 - lam) * Np.sum (Np.sq (fdiff dt (fdiff dt (fdiff dt y))))))
     * dt).
  - apply Qmult_le_compat_r; [|lra].
    apply Qmult_le_l; [reflexivity|]. lra.
  - apply Qle_lteq. right. ring.
Qed.

Lemma J_convex_witness :
  (3 <= 4)%Z /\ 0 < 1 /\ 0 <= 1 # 2 /\ 1 # 2 <= 1 /\
  length [0; 1; 2; 3] = length [0; 2; 4; 6] /\
  exists rx ry rm,
    J 4 1 2 [0; 1; 2; 3] = Ok rx /\ J 4 1 2 [0; 2; 4; 6] = Ok ry /\
    J 4 1 2 (mix (1 # 2) [0; 1; 2; 3] [0; 2; 4; 6]) = Ok rm /\
    rm <= (1 # 2) * rx + (1 - (1 # 2)) * ry.
Proof.
  assert (H1 : (3 <= 4)%Z) by lia.
  assert (H2 : 0 < 1) by reflexivity.
  assert (H3 : 0 <= 1 # 2) by (vm_compute; discriminate).
  assert (H4 : 1 # 2 <= 1) by (vm_compute; discriminate).
  assert (H5 : length [0; 1; 2; 3] = length [0; 2; 4; 6]) by reflexivity.
  repeat (split; [assumption|]).
  exact (J_convex 4 1 2 (1 # 2) [0; 1; 2; 3] [0; 2; 4; 6] H1 H2 H3 H4 H5).
Defined.

Lemma le_all_s_sub (c : Q) (l : list Q) :
  nonneg (Np.s_sub c l) <-> Forall (fun e => e <= c) l.
Proof.
  unfold nonneg, Np.s_sub. rewrite Forall_map.
  split; intros H; (eapply Forall_impl; [|exact H]); cbv beta;
    intros e He; lra.
Qed.

Lemma le_all_eqlist (c : Q) (l1 l2 : list Q) :
  l1 =l= l2 -> Forall (fun e => e <= c) l2 -> Forall (fun e => e <= c) l1.
Proof.
  induction 1 as [|p q l1 l2 Hpq Hl IH]; intros H; [constructor|].
  inversion H; subst. constructor; [rewrite Hpq; assumption | auto].
Qed.

Lemma le_all_mix (lam c : Q) (x y : list Q) :
  0 <= lam -> lam <= 1 ->
  Forall (fun e => e <= c) x -> Forall (fun e => e <= c) y ->
  Forall (fun e => e <= c) (mix lam x y).
Proof.
  intros H0 H1 Hx. revert y.
  induction Hx as [|p x Hp Hx IH]; intros y Hy; [constructor|].
  destruct Hy as [|q y Hq Hy]; [constructor|].
  cbn [mix]. constructor; [|apply IH; exact Hy].
  assert (P1 : lam * p <= lam * c)
    by (rewrite !(Qmult_comm lam); apply Qmult_le_compat_r; assumption).
  assert (P2 : (1 - lam) * q <= (1 - lam) * c)
    by (rewrite !(Qmult_comm (1 - lam)); apply Qmult_le_compat_r;
        [assumption | lra]).
  lra.
Qed.

(** X12.  The trajectories that meet the velocity limit form a convex set,
    and so do those that meet the acceleration limit: a convex combination
    of two trajectories of the same length that meet a limit meets it
    too. *)
Theorem limits_convex (N : Z) (dt v_max a_max lam : Q) (x y : list Q) :
  (2 <= N)%Z -> ~ dt == 0 -> 0 <= lam -> lam <= 1 ->
  length x = length y ->
  exists vx vy vm ax ay am,
    cons_vel N dt v_max x = Ok vx /\ cons_vel N dt v_max y = Ok vy /\
    cons_vel N dt v_max (mix lam x y) = Ok vm /\
    cons_acc N dt a_max x = Ok ax /\ cons_acc N dt a_max y = Ok ay /\
    cons_acc N dt a_max (mix lam x y) = Ok am /\
    (nonneg vx -> nonneg vy -> nonneg vm) /\
    (nonneg ax -> nonneg ay -> nonneg am).
Proof.
  intros HN _ H0 H1 Hlen.
  unfold cons_vel, cons_acc. rewrite !v_ok, !a_ok by lia. cbn [bind].
  do 6 eexists. do 6 (split; [reflexivity|]).
  assert (L1 : length (fdiff dt x) = length (fdiff dt y))
    by (rewrite !fdiff_length; lia).
  pose proof (fdiff_mix dt lam x y Hlen) as Ev.
  assert (Ea : fdiff dt (fdiff dt (mix lam x y))
               =l= mix lam (fdiff dt (fdiff dt x)) (fdiff dt (fdiff dt y))).
  { rewrite Ev. apply fdiff_mix. exact L1. }
  split; intros Hx Hy; apply le_all_s_sub in Hx, Hy; apply le_all_s_sub.
  - apply (le_all_eqlist _ _ _ Ev). apply le_all_mix; assumption.
  - apply (le_all_eqlist _ _ _ Ea). apply le_all_mix; assumption.
Qed.

Lemma limits_convex_witness :
  (2 <= 4)%Z /\ ~ 1 == 0 /\ 0 <= 1 # 2 /\ 1 # 2 <= 1 /\
  length [0; 1; 2; 3] = length [0; 2; 4; 6] /\
  exists vm,
    cons_vel 4 1 30 (mix (1 # 2) [0; 1; 2; 3] [0; 2; 4; 6]) = Ok vm.
Proof.
  assert (H1 : (2 <= 4)%Z) by lia.
  assert (H2 : ~ 1 == 0) by (vm_compute; discriminate).
  assert (H3 : 0 <= 1 # 2) by (vm_compute; discriminate).
  assert (H4 : 1 # 2 <= 1) by (vm_compute; discriminate).
  assert (H5 : length [0; 1; 2; 3] = length [0; 2; 4; 6]) by reflexivity.
  repeat (split; [assumption|]).
  destruct (limits_convex 4 1 30 15 (1 # 2) [0; 1; 2; 3] [0; 2; 4; 6]
              H1 H2 H3 H4 H5)
    as (vx & vy & vm & ax & ay & am & _ & _ & Hm & _).
  exists vm. exact Hm.
Defined.

(** ** The time step and the time axis *)

(** X13.  [del_t] is computed for every [N] but [1], where the division
    raises; the [N - 1] steps span the horizon, [(N - 1) * del_t = T]; for
    a positive horizon the step is positive iff [N >= 2], so a
    non-positive [N] is accepted and yields a negative step. *)
Theorem del_t_spans_horizon (T : Q) (N : Z) :
  match del_t T N with
  | Ok dt =>
      N <> 1%Z /\ inject_Z (N - 1) * dt == T /\
      (0 < T -> (0 < dt <-> (2 <= N)%Z))
  | Raise e => N = 1%Z /\ e = ZeroDivisionError
  end.
Proof.
  unfold del_t. destruct (Z.eqb_spec (N - 1) 0) as [E|E];
    [split; [lia | reflexivity]|].
  assert (Hne : ~ inject_Z (N - 1) == 0).
  { change 0 with (inject_Z 0). rewrite inject_Z_injective. exact E. }
  split; [lia|]. split; [field; exact Hne|].
  intros HT. split.
  - intros Hpos. destruct (Z.lt_ge_cases N 2) as [Hlt|]; [|assumption].
    exfalso.
    assert (Hneg : inject_Z (N - 1) < 0)
      by (change 0 with (inject_Z 0); rewrite <- Zlt_Qlt; lia).
    assert (Hprod : inject_Z (N - 1) * (T / inject_Z (N - 1)) == T)
      by (field; exact Hne).
    assert (Hle : inject_Z (N - 1) * (T / inject_Z (N - 1)) <= 0).
    { setoid_replace (inject_Z (N - 1) * (T / inject_Z (N - 1)))
        with (- ((- inject_Z (N - 1)) * (T / inject_Z (N - 1)))) by ring.
      assert (0 <= - inject_Z (N - 1) * (T / inject_Z (N - 1)))
        by (apply Qmult_le_0_compat; lra).
      lra. }
    lra.
  - intros HN. apply del_t_pos; assumption.
Qed.

Lemma nth_map_seq (f : nat -> Q) (n i : nat) :
  (i < n)%nat -> nth i (map f (seq 0 n)) 0 = f i.
Proof.
  intros Hi.
  rewrite (nth_indep _ 0 (f 0%nat)) by (rewrite length_map, length_seq; lia).
  rewrite map_nth, seq_nth by lia. reflexivity.
Qed.

(** X14.  With [N >= 2] samples the time axis of the plot is the grid of
    the discretisation with horizon [10]: it has [N] entries, entry [i] is
    [i * del_t], the first is [0] and the last is [10]. *)
Theorem t_axis_is_the_grid (N : Z) (dt : Q) :
  (2 <= N)%Z -> del_t 10 N = Ok dt ->
  exists ts,
    t_axis N = Ok ts /\ length ts = Z.to_nat N /\
    (forall i, (i < Z.to_nat N)%nat -> nth i ts 0 == idx i * dt) /\
    nth 0 ts 0 == 0 /\ last ts 0 = 10.
Proof.
  intros HN Hdt. rewrite del_t_ok in Hdt by lia. injection Hdt as <-.
  unfold t_axis, linspace.
  destruct (Z.ltb_spec N 0); [lia|]. destruct (Z.ltb_spec 1 N); [|lia].
  assert (Hne : ~ inject_Z (N - 1) == 0).
  { change 0 with (inject_Z 0). rewrite inject_Z_injective. lia. }
  destruct (Z.to_nat N) as [|m] eqn:Em; [lia|].
  assert (Hm : inject_Z (N - 1) = idx m) by (unfold idx; f_equal; lia).
  rewrite Hm in *.
  rewrite seq_S, map_app, Nat.add_0_l. cbn [map].
  rewrite removelast_last.
  eexists. split; [reflexivity|].
  split; [rewrite length_app, length_map, length_seq; cbn; lia|].
  split; [|split].
  - intros i Hi. destruct (Nat.eq_dec i m) as [->|Hne'].
    + rewrite app_nth2 by (rewrite length_map, length_seq; lia).
      rewrite length_map, length_seq, Nat.sub_diag. cbn [nth].
      field. exact Hne.
    + rewrite app_nth1 by (rewrite length_map, length_seq; lia).
      rewrite nth_map_seq by lia. fold (idx i). unfold Qdiv. ring.
  - destruct m as [|m]; [lia|].
    cbn [seq map app nth]. unfold Qdiv. ring.
  - apply last_last.
Qed.

Lemma t_axis_is_the_grid_witness :
  (2 <= 30)%Z /\ del_t 10 30 = Ok (10 / 29) /\
  exists ts, t_axis 30 = Ok ts /\ length ts = 30%nat /\ last ts 0 = 10.
Proof.
  assert (H1 : (2 <= 30)%Z) by lia.
  assert (H2 : del_t 10 30 = Ok (10 / 29)) by reflexivity.
  split; [exact H1|]. split; [exact H2|].
  destruct (t_axis_is_the_grid 30 (10 / 29) H1 H2)
    as (ts & Ht & Hlen & _ & _ & Hlast).
  exists ts. repeat split; assumption.
Defined.

(** ** Location *)

(** X15.  The limit constraints cannot tell a trajectory from its
    translates, the bounds can: shifting every sample by [c] leaves both
    limit constraint functions unchanged, and if a trajectory and its
    shift by [c] are both within the bounds then [c = 0]. *)
Theorem bounds_fix_location (N : Z) (dt v0 a0 v_max a_max c : Q)
        (bs : list bound) (x : list Q) :
  (3 <= N)%Z -> ~ dt == 0 -> bounds N dt v0 a0 = Ok bs ->
  eqres (cons_vel N dt v_max (Np.add_s x c)) (cons_vel N dt v_max x) /\
  eqres (cons_acc N dt a_max (Np.add_s x c)) (cons_acc N dt a_max x) /\
  (satisfies_bounds bs x -> satisfies_bounds bs (Np.add_s x c) -> c == 0).
Proof.
  intros HN _ Hb.
  pose proof (fdiff_add_s dt c x) as Hv.
  unfold cons_vel, cons_acc. rewrite !v_ok, !a_ok by lia.
  cbn [bind eqres]. unfold Np.s_sub.
  split; [|split].
  - apply eqlist_map; [intros p q E; rewrite E; reflexivity | exact Hv].
  - apply eqlist_map; [intros p q E; rewrite E; reflexivity|].
    rewrite Hv. reflexivity.
  - intros Hx Hxc.
    destruct (satisfies_bounds_prefix N dt v0 a0 bs x HN Hb Hx)
      as (s0 & s1 & s2 & rest & -> & E0 & _).
    destruct (satisfies_bounds_prefix N dt v0 a0 bs _ HN Hb Hxc)
      as (t0 & t1 & t2 & rest' & Et & F0 & _).
    unfold Np.add_s in Et. cbn [map] in Et. injection Et as <- _ _ _.
    lra.
Qed.

Lemma bounds_fix_location_witness :
  (3 <= 4)%Z /\ ~ 1 == 0 /\
  bounds 4 1 1 0 = Ok [(Fin 0, Fin 0); (Fin (1 * 1), Fin (1 * 1));
                       (Fin (0 * 1 ^ 2 + 2 * 1 * 1),
                        Fin (0 * 1 ^ 2 + 2 * 1 * 1));
                       (Fin 0, PInf)] /\
  eqres (cons_vel 4 1 30 (Np.add_s [0; 1; 2; 3] 7))
        (cons_vel 4 1 30 [0; 1; 2; 3]).
Proof.
  assert (H1 : (3 <= 4)%Z) by lia.
  assert (H2 : ~ 1 == 0) by (vm_compute; discriminate).
  assert (H3 : bounds 4 1 1 0
               = Ok [(Fin 0, Fin 0); (Fin (1 * 1), Fin (1 * 1));
                     (Fin (0 * 1 ^ 2 + 2 * 1 * 1),
                      Fin (0 * 1 ^ 2 + 2 * 1 * 1));
                     (Fin 0, PInf)]) by reflexivity.
  split; [exact H1|]. split; [exact H2|]. split; [exact H3|].
  exact (proj1 (bounds_fix_location 4 1 1 0 30 15 7 _ [0; 1; 2; 3]
                  H1 H2 H3)).
Defined.

Lemma big_sum_le (f : nat -> Q) (c : Q) (n : nat) :
  (forall k, (k < n)%nat -> f k <= c) -> big_sum f n <= idx n * c.
Proof.
  induction n as [|n IH]; intros H.
  - unfold idx. change (inject_Z (Z.of_nat 0)) with 0. cbn [big_sum]. lra.
  - cbn [big_sum]. rewrite idx_succ.
    specialize (IH ltac:(intros k Hk; apply H; lia)).
    specialize (H n ltac:(lia)).
    setoid_replace ((idx n + 1) * c) with (idx n * c + c) by ring.
    lra.
Qed.

(** X16.  With a positive time step, a trajectory that meets the velocity
    limit never runs ahead of full speed: sample [i] is at most the first
    sample plus [i * v_max * del_t]. *)
Theorem velocity_limit_bounds_positions (N : Z) (dt v_max : Q)
        (x cv : list Q) :
  (1 <= N)%Z -> 0 < dt ->
  cons_vel N dt v_max x = Ok cv -> nonneg cv ->
  forall i, (i < length x)%nat ->
    nth i x 0 <= nth 0 x 0 + idx i * v_max * dt.
Proof.
  intros HN Hdt Hcv Hnn i Hi.
  unfold cons_vel in Hcv. rewrite v_ok in Hcv by lia.
  cbn [bind] in Hcv. injection Hcv as <-.
  apply le_all_s_sub in Hnn. rewrite Forall_nth in Hnn.
  rewrite (fdiff_prefix_sum dt x i) by (assumption || lra).
  assert (Hs : big_sum (fun k => nth k (fdiff dt x) 0) i <= idx i * v_max).
  { apply big_sum_le. intros k Hk. apply Hnn.
    rewrite fdiff_length. lia. }
  assert (Hm : dt * big_sum (fun k => nth k (fdiff dt x) 0) i
               <= dt * (idx i * v_max))
    by (rewrite !(Qmult_comm dt); apply Qmult_le_compat_r; lra).
  lra.
Qed.

Lemma velocity_limit_bounds_positions_witness :
  (1 <= 4)%Z /\ 0 < 1 /\
  cons_vel 4 1 2 [0; 1; 3; 5] = Ok [2 - 1 / 1; 2 - 2 / 1; 2 - 2 / 1] /\
  nonneg [2 - 1 / 1; 2 - 2 / 1; 2 - 2 / 1] /\
  nth 3 [0; 1; 3; 5] 0 <= nth 0 [0; 1; 3; 5] 0 + idx 3 * 2 * 1.
Proof.
  assert (H1 : (1 <= 4)%Z) by lia.
  assert (H2 : 0 < 1) by reflexivity.
  assert (H3 : cons_vel 4 1 2 [0; 1; 3; 5]
               = Ok [2 - 1 / 1; 2 - 2 / 1; 2 - 2 / 1]) by reflexivity.
  assert (H4 : nonneg [2 - 1 / 1; 2 - 2 / 1; 2 - 2 / 1])
    by (repeat constructor; vm_compute; discriminate).
  repeat (split; [assumption|]).
  apply (velocity_limit_bounds_positions 4 1 2 _ _ H1 H2 H3 H4).
  cbn. lia.
Defined.
